(** * Task orchestration of the spreadsheet translator (web_translator.py)

    A shallow embedding of the in-memory task registry ([TASKS],
    [_safe_update], [_get_state]), of the background worker [_run_task],
    of the cancellation handler [task_cancel], of the retention sweeper
    [_schedule_state_cleanup], of the server-sent progress stream
    [sse_progress] and of the upload and download handlers ([upload_file],
    [download_file]), followed by the properties of the task life cycle.

    Conventions of the embedding.
    - A Python [dict] with string keys is a [gmap string _]; [d.update(kv)]
      is the left-biased union [kv ∪ d]; [d.get(k)] is the lookup [d !! k],
      whose [None] is Python's [None].
    - Python [int] is [Z]; a [float] (only clock readings and the two
      quotients of the progress arithmetic) is an exact rational [Q].
    - A [str] is the byte string of its UTF-8 encoding; [strip] removes
      the encodings of the characters for which [str.isspace] holds, and
      [lower] acts on the ASCII letters.
    - The lock [TASKS_LOCK] makes every registry call atomic, so a thread
      is a machine whose steps each contain at most one registry call;
      threads interleave between steps.
    - What lies outside the process (the workbook on disk, the translation
      service, the clock, the file system) is read from a [world]. *)

From Stdlib Require Import QArith Ascii String Sorted.
From stdpp Require Import gmap strings list fin_maps pretty.

Open Scope string_scope.
Open Scope Z_scope.

(** ** Python values and dictionaries *)

Inductive pyval :=
| VNone
| VBool (b : bool)
| VInt (z : Z)
| VFloat (q : Q)
| VStr (s : string).

#[global] Instance Q_eq_dec : EqDecision Q.
Proof. solve_decision. Defined.

#[global] Instance pyval_eq_dec : EqDecision pyval.
Proof. solve_decision. Defined.

Abbreviation pydict := (gmap string pyval).
Abbreviation registry := (gmap string (gmap string pyval)).

(** Truth value of [d.get(k)] in a condition. *)
Definition truthy (v : option pyval) : bool :=
  match v with
  | None | Some VNone => false
  | Some (VBool b) => b
  | Some (VInt z) => negb (z =? 0)
  | Some (VFloat q) => negb (Qeq_bool q 0)
  | Some (VStr s) => negb (String.eqb s "")
  end.

(** [v in ("done", "error", "canceled")] *)
Definition is_terminal (v : option pyval) : bool :=
  match v with
  | Some (VStr s) =>
      String.eqb s "done" || String.eqb s "error" || String.eqb s "canceled"
  | _ => false
  end.

(** ** The registry: [TASKS] under [TASKS_LOCK] *)

Definition TASK_RETENTION_SECONDS : Z := 1800.

(** [st = TASKS.get(task_id); if st: st.update(kv)].  The stored dict is
    mutated in place, so the registry sees the merged fields. *)
Definition _safe_update (task_id : string) (kv : pydict) (T : registry) : registry :=
  match T !! task_id with
  | Some st => if decide (st = ∅) then T else <[task_id := kv ∪ st]> T
  | None => T
  end.

(** [dict(TASKS.get(task_id) or {})]: a copy, empty when the task is
    unknown. *)
Definition _get_state (task_id : string) (T : registry) : pydict :=
  match T !! task_id with
  | Some st => if decide (st = ∅) then ∅ else st
  | None => ∅
  end.

(** [TASKS.pop(task_id, None)], the body of the sweeper's [_cleanup]. *)
Definition _cleanup (task_id : string) (T : registry) : registry :=
  delete task_id T.

(** ** HTTP handlers on the registry *)

Inductive response := Resp (code : Z) (body : list (string * pyval)).

Definition not_found : response := Resp 404 [("error", VStr "任务不存在")].
Definition already_finished : response :=
  Resp 200 [("success", VBool true); ("message", VStr "任务已结束")].
Definition cancel_accepted : response :=
  Resp 202 [("success", VBool true); ("message", VStr "已请求取消")].

(** [task_status] *)
Definition task_status (task_id : string) (T : registry) : response :=
  let st := _get_state task_id T in
  if decide (st = ∅) then not_found else Resp 200 (map_to_list st).

(** [task_cancel] takes the lock twice: once for the snapshot it decides
    on, once for the update.  [cancel_check] is the first half; it answers
    at once or lets the request proceed to [cancel_commit]. *)
Definition cancel_check (task_id : string) (T : registry) : option response :=
  let st := _get_state task_id T in
  if decide (st = ∅) then Some not_found
  else if is_terminal (st !! "status") then Some already_finished
  else None.

Definition cancel_fields : pydict :=
  {[ "cancel_requested" := VBool true; "message" := VStr "取消中..." ]}.

Definition cancel_commit (task_id : string) (T : registry) : registry :=
  _safe_update task_id cancel_fields T.

(** The handler run without another thread in between. *)
Definition task_cancel (task_id : string) (T : registry) : registry * response :=
  match cancel_check task_id T with
  | Some r => (T, r)
  | None => (cancel_commit task_id T, cancel_accepted)
  end.

(** ** The progress stream [sse_progress] *)

(** One server-sent event: an optional [event:] line and the JSON object
    of the [data:] line, as its key/value pairs in order. *)
Record sse_event := SseEvent {
  ev_name : option string;
  ev_data : list (string * pyval)
}.

Definition opt_val (v : option pyval) : pyval := default VNone v.

(** [str(v)] as an f-string renders it.  Only strings and integers are
    ever formatted; the digits of a float are outside the model. *)
Definition py_format (v : pyval) : string :=
  match v with
  | VNone => "None"
  | VBool true => "True"
  | VBool false => "False"
  | VInt z => pretty z
  | VFloat _ => "<float>"
  | VStr s => s
  end.

(** [f"/download/{name}" if name else None] with
    [name = state.get("download_filename")]. *)
Definition download_url (v : option pyval) : pyval :=
  if truthy v then VStr ("/download/" ++ py_format (opt_val v)) else VNone.

Definition not_found_event (task_id : string) : sse_event :=
  SseEvent None
    [("task_id", VStr task_id); ("status", VStr "error");
     ("message", VStr "任务不存在")].

Definition progress_event (task_id : string) (state : pydict) : sse_event :=
  SseEvent (Some "progress")
    [("task_id", VStr task_id);
     ("status", opt_val (state !! "status"));
     ("percent", opt_val (state !! "percent"));
     ("eta_seconds", opt_val (state !! "eta_seconds"));
     ("message", opt_val (state !! "message"));
     ("download_url", download_url (state !! "download_filename"));
     ("filename", opt_val (state !! "filename"));
     ("started_at", opt_val (state !! "started_at"));
     ("finished_at", opt_val (state !! "finished_at"));
     ("duration_seconds", opt_val (state !! "duration_seconds"))].

(** The generator [event_stream].  Each iteration of its [while True]
    takes one snapshot; [polls] lists the registry as it is at the
    successive snapshots.  The result is the events yielded and whether
    the generator has returned ([true]) or is waiting for its next poll. *)
Fixpoint event_stream (task_id : string) (polls : list registry)
  : list sse_event * bool :=
  match polls with
  | [] => ([], false)
  | T :: rest =>
      let state := _get_state task_id T in
      if decide (state = ∅) then ([not_found_event task_id], true)
      else
        let e := progress_event task_id state in
        if is_terminal (state !! "status") then ([e], true)
        else
          let '(es, closed) := event_stream task_id rest in
          (e :: es, closed)
  end.

(** The [status] entry of an event's payload. *)
Definition ev_status (e : sse_event) : option pyval :=
  snd <$> List.find (λ kv, String.eqb (fst kv) "status") (ev_data e).

Definition is_snapshot (e : sse_event) : bool :=
  match ev_name e with Some n => String.eqb n "progress" | None => false end.

Definition terminal_snapshot (e : sse_event) : bool :=
  is_snapshot e && is_terminal (ev_status e).

(** The poll of a task that is known and not at its end. *)
Definition running_poll (tid : string) (T : registry) : Prop :=
  _get_state tid T ≠ ∅ ∧ is_terminal (_get_state tid T !! "status") = false.

(** ** Strings and paths used by the worker *)

(** [str.isspace] holds of 29 characters, and these are what [str.strip]
    removes.  Ten are in the ASCII range, one byte each: TAB..CR, FS..US
    and the space. *)
Definition is_space (a : ascii) : bool :=
  let n := nat_of_ascii a in
  ((9 <=? n)%nat && (n <=? 13)%nat) || ((28 <=? n)%nat && (n <=? 32)%nat).

(** Two have two bytes: U+0085 (C2 85) and U+00A0 (C2 A0). *)
Definition is_space2 (a b : ascii) : bool :=
  let '(a, b) := (nat_of_ascii a, nat_of_ascii b) in
  ((a =? 194) && ((b =? 133) || (b =? 160)))%nat.

(** Seventeen have three bytes: U+1680 (E1 9A 80), U+2000..U+200A,
    U+2028, U+2029 and U+202F (E2 80 80..8A, A8, A9, AF), U+205F
    (E2 81 9F) and U+3000 (E3 80 80). *)
Definition is_space3 (a b c : ascii) : bool :=
  let '(a, b, c) := (nat_of_ascii a, nat_of_ascii b, nat_of_ascii c) in
  ((a =? 225) && (b =? 154) && (c =? 128)
   || (a =? 226) && (b =? 128) &&
      ((128 <=? c) && (c <=? 138) || (c =? 168) || (c =? 169) || (c =? 175))
   || (a =? 226) && (b =? 129) && (c =? 159)
   || (a =? 227) && (b =? 128) && (c =? 128))%nat.

(** [s.lstrip()]: the leading whitespace characters are dropped. *)
Fixpoint lstrip (s : string) : string :=
  match s with
  | String a s1 =>
      if is_space a then lstrip s1
      else match s1 with
           | String b s2 =>
               if is_space2 a b then lstrip s2
               else match s2 with
                    | String c s3 => if is_space3 a b c then lstrip s3 else s
                    | EmptyString => s
                    end
           | EmptyString => s
           end
  | EmptyString => EmptyString
  end.

(** The same on a reversed string, in which the bytes of each character
    come last byte first.  The first byte of a character of two or three
    bytes is never a later byte of a character, so the bytes matched at
    the end of a string are one whole character. *)
Fixpoint lstrip_reversed (s : string) : string :=
  match s with
  | String a s1 =>
      if is_space a then lstrip_reversed s1
      else match s1 with
           | String b s2 =>
               if is_space2 b a then lstrip_reversed s2
               else match s2 with
                    | String c s3 =>
                        if is_space3 c b a then lstrip_reversed s3 else s
                    | EmptyString => s
                    end
           | EmptyString => s
           end
  | EmptyString => EmptyString
  end.

(** [s.strip()] *)
Definition strip (s : string) : string :=
  String.rev (lstrip_reversed (String.rev (lstrip s))).

(** [s.lower()] on the ASCII letters.  Outside ASCII only U+0130 and
    U+212A have a lower-case form with an ASCII letter ("i" followed by
    U+0307, and "k"), so a string with a character outside ASCII is
    never equal to "title" after [lower], here as in Python; the model
    uses [lower] for that comparison only. *)
Definition lower_ascii (a : ascii) : ascii :=
  let n := nat_of_ascii a in
  if (65 <=? n)%nat && (n <=? 90)%nat then ascii_of_nat (n + 32) else a.

Fixpoint lower (s : string) : string :=
  match s with
  | String a s' => String (lower_ascii a) (lower s')
  | EmptyString => EmptyString
  end.

(** The UTF-8 encoding of the character with code point [c]. *)
Definition utf8 (c : N) : string :=
  let byte (n : N) := String (ascii_of_N n) "" in
  (if c <? 128 then byte c
   else if c <? 2048 then byte (192 + c / 64) ++ byte (128 + c mod 64)
   else if c <? 65536 then
     byte (224 + c / 4096) ++ byte (128 + (c / 64) mod 64) ++
     byte (128 + c mod 64)
   else
     byte (240 + c / 262144) ++ byte (128 + (c / 4096) mod 64) ++
     byte (128 + (c / 64) mod 64) ++ byte (128 + c mod 64))%N.

(** [chr(c).isspace()], as a table of code points. *)
Definition py_isspace (c : N) : bool :=
  ((9 <=? c) && (c <=? 13) || (28 <=? c) && (c <=? 32) ||
   (c =? 133) || (c =? 160) || (c =? 5760) ||
   (8192 <=? c) && (c <=? 8202) || (c =? 8232) || (c =? 8233) ||
   (c =? 8239) || (c =? 8287) || (c =? 12288))%N.

(** [strip] removes the character [c] from both ends of a string exactly
    when [c] is a whitespace character. *)
Definition strip_as_isspace (c : N) : bool :=
  String.eqb (strip (utf8 c ++ "x" ++ utf8 c))
             (if py_isspace c then "x" else utf8 c ++ "x" ++ utf8 c).

(** The part of [s] before the first [c], and what follows that [c]
    ([None] when [c] does not occur). *)
Fixpoint before (c : ascii) (s : string) : string :=
  match s with
  | String a s' => if Ascii.eqb a c then EmptyString else String a (before c s')
  | EmptyString => EmptyString
  end.

Fixpoint after (c : ascii) (s : string) : option string :=
  match s with
  | String a s' => if Ascii.eqb a c then Some s' else after c s'
  | EmptyString => None
  end.

Fixpoint all_char (c : ascii) (s : string) : bool :=
  match s with
  | String a s' => Ascii.eqb a c && all_char c s'
  | EmptyString => true
  end.

Fixpoint lstrip_char (c : ascii) (s : string) : string :=
  match s with
  | String a s' => if Ascii.eqb a c then lstrip_char c s' else s
  | EmptyString => EmptyString
  end.

(** [os.path.basename]: what follows the last slash. *)
Definition basename (p : string) : string :=
  String.rev (before "/" (String.rev p)).

(** [os.path.dirname]: up to the last slash, trailing slashes removed
    unless nothing else is left. *)
Definition dirname (p : string) : string :=
  match after "/" (String.rev p) with
  | None => ""
  | Some rest =>
      let head := String.rev (String "/" rest) in
      if all_char "/" head then head
      else String.rev (lstrip_char "/" (String "/" rest))
  end.

(** [os.path.splitext(name)[0]] for a [name] without slash: cut at the
    last dot unless only dots precede it. *)
Definition splitext_root (name : string) : string :=
  match after "." (String.rev name) with
  | None => name
  | Some rest => if all_char "." rest then name else String.rev rest
  end.

(** [os.path.join(d, name)] for a relative [name]. *)
Definition path_join (d name : string) : string :=
  if String.eqb d "" then name
  else match String.rev d with
       | String "/" _ => d ++ name
       | _ => d ++ "/" ++ name
       end.

(** ** The worksheet *)

(** The value of a cell.  [COther] stands for the types whose [str()] the
    model does not compute (floats, dates); it carries that text. *)
Inductive cellval :=
| CNone
| CStr (s : string)
| CInt (z : Z)
| CBool (b : bool)
| COther (repr : string).

Definition py_str (v : cellval) : string :=
  match v with
  | CNone => "None"
  | CStr s => s
  | CInt z => pretty z
  | CBool true => "True"
  | CBool false => "False"
  | COther repr => repr
  end.

(** The active sheet as its rows of cells, row 1 first. *)
Abbreviation worksheet := (list (list cellval)).

Definition max_row (ws : worksheet) : Z := Z.max 1 (Z.of_nat (length ws)).

Definition max_column (ws : worksheet) : Z :=
  Z.max 1 (Z.of_nat (foldr (λ cells m, Nat.max (length cells) m) 0%nat ws)).

(** [ws.cell(row, column).value]; a cell that was never written holds
    [None]. *)
Definition cell_value (ws : worksheet) (row column : Z) : cellval :=
  default CNone (ws !! Z.to_nat (row - 1) ≫= (.!! Z.to_nat (column - 1))).

(** [ws[row]]: the cells of columns 1 to [max_column]. *)
Definition row_cells (ws : worksheet) (row : Z) : list cellval :=
  cell_value ws row <$> seqZ 1 (max_column ws).

Definition pad {A} (n : nat) (d : A) (l : list A) : list A :=
  (l ++ replicate (n - length l) d)%list.

(** [ws.cell(row, column, value=v)] *)
Definition set_cell (ws : worksheet) (row column : Z) (v : cellval) : worksheet :=
  let r := Z.to_nat (row - 1) in
  let c := Z.to_nat (column - 1) in
  alter (λ cells, <[c := v]> (pad (S c) CNone cells)) r (pad (S r) [] ws).

(** [ws.insert_cols(idx)]: the cells from column [idx] on move one column
    to the right. *)
Definition insert_cols (ws : worksheet) (idx : Z) : worksheet :=
  let i := Z.to_nat (idx - 1) in
  (λ cells, if (i <? length cells)%nat
            then (take i cells ++ CNone :: drop i cells)%list else cells) <$> ws.

(** The search of the header row, [enumerate(ws[1], 1)]. *)
Fixpoint find_title (cells : list cellval) (idx : Z) : option Z :=
  match cells with
  | [] => None
  | c :: rest =>
      if String.eqb (lower (strip (py_str c))) "title" then Some idx
      else find_title rest (idx + 1)
  end.

(** [[r for r in range(2, ws.max_row + 1)
      if str(ws.cell(row=r, column=title_col_idx).value).strip()]] *)
Definition rows_to_translate (ws : worksheet) (title_col_idx : Z) : list Z :=
  List.filter
    (λ r, negb (String.eqb (strip (py_str (cell_value ws r title_col_idx))) ""))
    (seqZ 2 (max_row ws - 1)).

(** ** The world outside the process *)

(** Calls of the worker into openpyxl that may raise. *)
Inductive site :=
| SiteInsert            (* [ws.insert_cols] and the write of the new header *)
| SiteUnit (row : Z)    (* the cell read and write of one row *)
| SiteSave.             (* [wb.save] *)

(** The calls of [time.time()]. *)
Inductive tsite :=
| TStarted              (* [started_at] *)
| TLoopStart            (* [start] *)
| TUnit (idx : Z)       (* the reading of iteration [idx] *)
| TFinished.            (* [finished_at] *)

(** What the [try] block of the [finally] clause does to the scratch
    directory. *)
Inductive release_outcome :=
| RelAbsent             (* [os.path.isdir(base)] is false *)
| RelRemoved            (* [shutil.rmtree] removed it *)
| RelIgnored            (* [rmtree] failed; [ignore_errors=True] *)
| RelRaised.            (* an exception, caught by [except Exception: pass] *)

Record world := World {
  (** [load_workbook(file_path)]: the text of the exception it raises, or
      [wb.active] *)
  w_load : string + option worksheet;
  (** [translate_text], which catches its own exceptions *)
  w_translate : string → string;
  (** the text of the exception raised at a call site, if any *)
  w_fault : site → option string;
  (** the clock *)
  w_time : tsite → Q;
  (** [tempfile.gettempdir()] *)
  w_tmpdir : string;
  w_release : release_outcome
}.

(** The arguments of [_run_task], and the [filename] recorded at
    submission. *)
Record task := Task {
  file_path : string;
  filename : string;
  task_id : string
}.

(** Effects of the worker outside the registry, in order. *)
Inductive effect :=
| EffSave (path : string) (ws : worksheet)
| EffRelease (base : string) (o : release_outcome)
| EffSchedule (tid : string).

(** ** Progress arithmetic *)

(** True division; [None] is [ZeroDivisionError]. *)
Definition pydiv (a b : Q) : option Q :=
  if Qeq_bool b 0 then None else Some (a / b)%Q.

(** [int(q)]: truncation toward zero. *)
Definition py_int (q : Q) : Z := Z.quot (Qnum q) (Z.pos (Qden q)).

(** [max(a, b)]: [b] if it is greater, else [a]. *)
Definition pymax (a b : Q) : Q := if Qle_bool b a then a else b.

(** [max(time.time() - start, 1e-6)] *)
Definition elapsed_of (now start : Q) : Q :=
  pymax (now - start)%Q (1 # 1000000)%Q.

(** [int((total - idx) / (idx / elapsed)) if idx else 0] *)
Definition eta_of (total idx : Z) (elapsed : Q) : option Z :=
  if idx =? 0 then Some 0
  else
    rate ← pydiv (inject_Z idx) elapsed;
    py_int <$> pydiv (inject_Z (total - idx)) rate.

(** [int(idx * 100 / total)] *)
Definition percent_of (total idx : Z) : option Z :=
  py_int <$> pydiv (inject_Z (idx * 100)) (inject_Z total).

(** ** The worker [_run_task] *)

(** The locals of the worker once the sheet is prepared. *)
Record wctx := WCtx {
  c_ws : worksheet;
  c_title : Z;      (* [title_col_idx] *)
  c_insert : Z;     (* [insert_idx] *)
  c_total : Z       (* [total] *)
}.

(** Program points of the worker thread.  Between two of them lies at
    most one registry call. *)
Inductive wpc :=
| WStart                                   (* line 54 *)
| WPrepare                                 (* lines 56-80 *)
| WDispatch (c : wctx) (rows : list Z)     (* lines 82-86 *)
| WCheck (c : wctx) (start : Q) (idx : Z) (rows : list Z)
                                           (* loop head, line 88; after
                                              the loop, lines 106-117 *)
| WCancel                                  (* line 89 *)
| WUnit (c : wctx) (start : Q) (idx : Z) (row : Z) (rest : list Z)
                                           (* lines 92-104 *)
| WFinally                                 (* lines 121-126 *)
| WSchedule                                (* line 127 *)
| WExit.                                   (* the thread has ended *)

Definition running_fields (w : world) : pydict :=
  {[ "status" := VStr "running"; "message" := VStr "读取文件...";
     "percent" := VInt 0; "started_at" := VFloat (w_time w TStarted) ]}.

Definition total_fields (total : Z) : pydict :=
  {[ "total" := VInt total; "current" := VInt 0 ]}.

Definition nothing_fields : pydict :=
  {[ "status" := VStr "done"; "percent" := VInt 100;
     "message" := VStr "无需翻译" ]}.

Definition canceled_fields : pydict :=
  {[ "status" := VStr "canceled"; "message" := VStr "已取消" ]}.

Definition progress_fields (total idx eta pct : Z) : pydict :=
  {[ "current" := VInt idx; "percent" := VInt pct;
     "eta_seconds" := VInt eta;
     "message" := VStr ("翻译中(" ++ pretty idx ++ "/" ++ pretty total ++ ")") ]}.

Definition done_fields (w : world) (total : Z) (output_filename : string) : pydict :=
  {[ "status" := VStr "done"; "percent" := VInt 100;
     "eta_seconds" := VInt 0;
     "message" := VStr ("翻译完成，共处理 " ++ pretty total ++ " 行");
     "download_filename" := VStr output_filename;
     "finished_at" := VFloat (w_time w TFinished) ]}.

Definition error_fields (w : world) (msg : string) : pydict :=
  {[ "status" := VStr "error"; "message" := VStr msg;
     "finished_at" := VFloat (w_time w TFinished) ]}.

Definition output_filename_of (tk : task) : string :=
  splitext_root (basename (file_path tk)) ++ "_中文翻译.xlsx".

(** Lines 56-79: load the workbook, find the title column, insert the
    translation column, select the rows.  [inl] is a raised exception. *)
Definition prepare (w : world) : string + (wctx * list Z) :=
  match w_load w with
  | inl msg => inl msg
  | inr None => inl "空工作表"
  | inr (Some ws) =>
      match find_title (row_cells ws 1) 1 with
      | None => inl "找不到 Title 列"
      | Some title_col_idx =>
          let insert_idx := title_col_idx + 1 in
          match w_fault w SiteInsert with
          | Some msg => inl msg
          | None =>
              let ws := set_cell (insert_cols ws insert_idx) 1 insert_idx
                          (CStr "中文") in
              let rows := rows_to_translate ws title_col_idx in
              inr (WCtx ws title_col_idx insert_idx (Z.of_nat (length rows)),
                   rows)
          end
      end
  end.

(** Lines 92-103 up to the update: the new sheet and the fields to
    store. *)
Definition unit_of_work (w : world) (c : wctx) (start : Q) (idx row : Z)
  : string + (wctx * pydict) :=
  let title_cell := cell_value (c_ws c) row (c_title c) in
  let translated := w_translate w (py_str title_cell) in
  match w_fault w (SiteUnit row) with
  | Some msg => inl msg
  | None =>
      let ws := set_cell (c_ws c) row (c_insert c) (CStr translated) in
      let elapsed := elapsed_of (w_time w (TUnit idx)) start in
      match eta_of (c_total c) idx elapsed with
      | None => inl "float division by zero"
      | Some eta =>
          match percent_of (c_total c) idx with
          | None => inl "division by zero"
          | Some pct =>
              inr (WCtx ws (c_title c) (c_insert c) (c_total c),
                   progress_fields (c_total c) idx eta pct)
          end
      end
  end.

(** Lines 106-108: name and write the output file. *)
Definition save_output (w : world) (tk : task) (c : wctx)
  : string + (string * list effect) :=
  let output_filename := output_filename_of tk in
  let output_path := path_join (w_tmpdir w) output_filename in
  match w_fault w SiteSave with
  | Some msg => inl msg
  | None => inr (output_filename, [EffSave output_path (c_ws c)])
  end.

(** One step of the body of the [try] statement from a program point
    inside it: [inl msg] when an exception with text [msg] is raised,
    else the next program point, the registry and the effects. *)
Definition try_step (w : world) (tk : task) (pc : wpc) (T : registry)
  : option (string + wpc * registry * list effect) :=
  let tid := task_id tk in
  match pc with
  | WPrepare =>
      Some match prepare w with
           | inl msg => inl msg
           | inr (c, rows) =>
               inr (WDispatch c rows,
                    _safe_update tid (total_fields (c_total c)) T, [])
           end
  | WDispatch c rows =>
      Some (inr (if c_total c =? 0
                 then (WFinally, _safe_update tid nothing_fields T, [])
                 else (WCheck c (w_time w TLoopStart) 1 rows, T, [])))
  | WCheck c start idx [] =>
      Some match save_output w tk c with
           | inl msg => inl msg
           | inr (output_filename, effs) =>
               inr (WFinally,
                    _safe_update tid
                      (done_fields w (c_total c) output_filename) T,
                    effs)
           end
  | WCheck c start idx (row :: rest) =>
      Some (inr (if truthy (_get_state tid T !! "cancel_requested")
                 then (WCancel, T, [])
                 else (WUnit c start idx row rest, T, [])))
  | WCancel =>
      Some (inr (WFinally, _safe_update tid canceled_fields T, []))
  | WUnit c start idx row rest =>
      Some match unit_of_work w c start idx row with
           | inl msg => inl msg
           | inr (c', kv) =>
               inr (WCheck c' start (idx + 1) rest, _safe_update tid kv T, [])
           end
  | WStart | WFinally | WSchedule | WExit => None
  end.

(** One step of the worker thread.  An exception of the [try] body runs
    the [except Exception] clause and falls into [finally], as the
    [return] statements do. *)
Definition worker_step (w : world) (tk : task) (pc : wpc) (T : registry)
  : wpc * registry * list effect :=
  let tid := task_id tk in
  match try_step w tk pc T with
  | Some (inr next) => next
  | Some (inl msg) => (WFinally, _safe_update tid (error_fields w msg) T, [])
  | None =>
      match pc with
      | WStart => (WPrepare, _safe_update tid (running_fields w) T, [])
      | WFinally =>
          (WSchedule, T, [EffRelease (dirname (file_path tk)) (w_release w)])
      | WSchedule => (WExit, T, [EffSchedule tid])
      | _ => (pc, T, [])
      end
  end.

(** ** The process: worker, cancellation requests and sweeper *)

Record sys := Sys {
  tasks : registry;
  worker : wpc;
  (** cancellation requests between their snapshot and their update *)
  pending_cancels : nat;
  (** sweeper threads asleep *)
  sweepers : nat;
  effects : list effect
}.

Definition initial_state (tk : task) : pydict :=
  {[ "status" := VStr "idle"; "percent" := VInt 0; "message" := VStr "";
     "filename" := VStr (filename tk); "total" := VInt 0;
     "current" := VInt 0; "cancel_requested" := VBool false;
     "tmp_dir" := VStr (dirname (file_path tk)) ]}.

(** [start_background_task], with [task_id] the fresh identifier. *)
Definition start_background_task (tk : task) (T : registry) : sys :=
  Sys (<[task_id tk := initial_state tk]> T) WStart 0 0 [].

Definition count_schedules (effs : list effect) : nat :=
  length (List.filter (λ e, match e with EffSchedule _ => true | _ => false end) effs).

Definition count_releases (effs : list effect) : nat :=
  length (List.filter (λ e, match e with EffRelease _ _ => true | _ => false end) effs).

Inductive event :=
| EvWorker          (* the worker thread runs to its next program point *)
| EvCancelCheck     (* a [task_cancel] request takes its snapshot *)
| EvCancelCommit    (* a [task_cancel] request makes its update *)
| EvSweep.          (* a sweeper wakes up and pops the task *)

#[global] Instance event_eq_dec : EqDecision event.
Proof. solve_decision. Defined.

Definition sys_step (w : world) (tk : task) (ev : event) (s : sys) : sys :=
  let tid := task_id tk in
  match ev with
  | EvWorker =>
      let '(pc, T, effs) := worker_step w tk (worker s) (tasks s) in
      Sys T pc (pending_cancels s)
          (sweepers s + count_schedules effs) (effects s ++ effs)
  | EvCancelCheck =>
      match cancel_check tid (tasks s) with
      | Some _ => s
      | None => Sys (tasks s) (worker s) (S (pending_cancels s))
                    (sweepers s) (effects s)
      end
  | EvCancelCommit =>
      match pending_cancels s with
      | O => s
      | S n => Sys (cancel_commit tid (tasks s)) (worker s) n
                   (sweepers s) (effects s)
      end
  | EvSweep =>
      match sweepers s with
      | O => s
      | S n => Sys (_cleanup tid (tasks s)) (worker s) (pending_cancels s) n
                   (effects s)
      end
  end.

(** Run a schedule, first event first. *)
Definition exec (w : world) (tk : task) (evs : list event) (s : sys) : sys :=
  foldl (λ s ev, sys_step w tk ev s) s evs.

Definition count_worker (evs : list event) : nat :=
  length (List.filter (λ e, match e with EvWorker => true | _ => false end) evs).

(** The task's record as a client sees it. *)
Definition field (tk : task) (k : string) (s : sys) : option pyval :=
  _get_state (task_id tk) (tasks s) !! k.

(** ** Operations on an identifier *)

(** The calls a client or the worker can make about one identifier. *)
Inductive registry_op :=
| OpUpdate (kv : pydict)      (* [_safe_update] *)
| OpSnapshot                  (* [_get_state] *)
| OpStatus                    (* [GET /tasks/<id>] *)
| OpCancel.                   (* [POST /tasks/<id>/cancel] *)

Inductive op_result :=
| RNothing
| RState (st : pydict)
| RResponse (r : response).

Definition apply_op (tid : string) (op : registry_op) (T : registry)
  : registry * op_result :=
  match op with
  | OpUpdate kv => (_safe_update tid kv T, RNothing)
  | OpSnapshot => (T, RState (_get_state tid T))
  | OpStatus => (T, RResponse (task_status tid T))
  | OpCancel => let '(T', r) := task_cancel tid T in (T', RResponse r)
  end.

Fixpoint apply_ops (tid : string) (ops : list registry_op) (T : registry)
  : registry * list op_result :=
  match ops with
  | [] => (T, [])
  | op :: ops' =>
      let '(T1, r) := apply_op tid op T in
      let '(T2, rs) := apply_ops tid ops' T1 in
      (T2, r :: rs)
  end.

(** What a call answers about an identifier the registry does not know. *)
Definition absent_result (op : registry_op) : op_result :=
  match op with
  | OpUpdate _ => RNothing
  | OpSnapshot => RState ∅
  | OpStatus | OpCancel => RResponse not_found
  end.

(** ** The worker's steps as a relation *)

Definition apply_update (tid : string) (upd : option pydict) (T : registry)
  : registry :=
  match upd with
  | Some kv => _safe_update tid kv T
  | None => T
  end.

(** [wtrans w tk T pc pc' upd effs]: from [pc], with the registry [T], the
    worker moves to [pc'], makes the registry update [upd] (if any) and
    has the effects [effs]. *)
Inductive wtrans (w : world) (tk : task) (T : registry)
  : wpc → wpc → option pydict → list effect → Prop :=
| wt_start :
    wtrans w tk T WStart WPrepare (Some (running_fields w)) []
| wt_prepare_raise msg :
    prepare w = inl msg →
    wtrans w tk T WPrepare WFinally (Some (error_fields w msg)) []
| wt_prepare c rows :
    prepare w = inr (c, rows) →
    wtrans w tk T WPrepare (WDispatch c rows)
           (Some (total_fields (c_total c))) []
| wt_nothing c rows :
    c_total c = 0 →
    wtrans w tk T (WDispatch c rows) WFinally (Some nothing_fields) []
| wt_enter c rows :
    c_total c ≠ 0 →
    wtrans w tk T (WDispatch c rows) (WCheck c (w_time w TLoopStart) 1 rows)
           None []
| wt_save_raise c start idx msg :
    save_output w tk c = inl msg →
    wtrans w tk T (WCheck c start idx []) WFinally
           (Some (error_fields w msg)) []
| wt_done c start idx :
    w_fault w SiteSave = None →
    wtrans w tk T (WCheck c start idx []) WFinally
           (Some (done_fields w (c_total c) (output_filename_of tk)))
           [EffSave (path_join (w_tmpdir w) (output_filename_of tk)) (c_ws c)]
| wt_observe c start idx row rest :
    truthy (_get_state (task_id tk) T !! "cancel_requested") = true →
    wtrans w tk T (WCheck c start idx (row :: rest)) WCancel None []
| wt_continue c start idx row rest :
    truthy (_get_state (task_id tk) T !! "cancel_requested") = false →
    wtrans w tk T (WCheck c start idx (row :: rest))
           (WUnit c start idx row rest) None []
| wt_cancel :
    wtrans w tk T WCancel WFinally (Some canceled_fields) []
| wt_unit_raise c start idx row rest msg :
    unit_of_work w c start idx row = inl msg →
    wtrans w tk T (WUnit c start idx row rest) WFinally
           (Some (error_fields w msg)) []
| wt_unit c start idx row rest eta pct :
    w_fault w (SiteUnit row) = None →
    eta_of (c_total c) idx (elapsed_of (w_time w (TUnit idx)) start) = Some eta →
    percent_of (c_total c) idx = Some pct →
    wtrans w tk T (WUnit c start idx row rest)
           (WCheck (WCtx (set_cell (c_ws c) row (c_insert c)
                            (CStr (w_translate w
                                     (py_str (cell_value (c_ws c) row (c_title c))))))
                         (c_title c) (c_insert c) (c_total c))
                   start (idx + 1) rest)
           (Some (progress_fields (c_total c) idx eta pct)) []
| wt_finally :
    wtrans w tk T WFinally WSchedule None
           [EffRelease (dirname (file_path tk)) (w_release w)]
| wt_schedule :
    wtrans w tk T WSchedule WExit None [EffSchedule (task_id tk)]
| wt_exit :
    wtrans w tk T WExit WExit None [].

(** States of the process after a submission. *)
Inductive reachable (w : world) (tk : task) : sys → Prop :=
| reach_start T0 : reachable w tk (start_background_task tk T0)
| reach_step s ev : reachable w tk s → reachable w tk (sys_step w tk ev s).

(** The worker is past its last registry update. *)
Definition finished (pc : wpc) : bool :=
  match pc with
  | WFinally | WSchedule | WExit => true
  | _ => false
  end.

(** An upper bound on the steps the worker still takes. *)
Definition steps_left (w : world) (pc : wpc) : nat :=
  let prepare_steps :=
    match prepare w with
    | inr (_, rows) => 2 * length rows + 5
    | inl _ => 3
    end%nat in
  match pc with
  | WStart => S prepare_steps
  | WPrepare => prepare_steps
  | WDispatch _ rows => 2 * length rows + 4
  | WCheck _ _ _ rows => 2 * length rows + 3
  | WUnit _ _ _ _ rest => 2 * length rest + 4
  | WCancel => 3
  | WFinally => 2
  | WSchedule => 1
  | WExit => 0
  end%nat.

(** Units remain to be started after the one in flight, if any, and the
    one in flight does not raise. *)
Definition units_pending (w : world) (pc : wpc) : bool :=
  match pc with
  | WDispatch c (_ :: _) => negb (c_total c =? 0)
  | WCheck _ _ _ (_ :: _) => true
  | WUnit c start idx row (_ :: _) =>
      match unit_of_work w c start idx row with
      | inr _ => true
      | inl _ => false
      end
  | _ => false
  end.

(** How often the scratch directory has been released and the sweeper
    scheduled when the worker is at a program point. *)
Definition releases_at (pc : wpc) : nat :=
  match pc with
  | WSchedule | WExit => 1
  | _ => 0
  end.

Definition schedules_at (pc : wpc) : nat :=
  match pc with
  | WExit => 1
  | _ => 0
  end.

(** What the task's record holds while the worker is at a program point:
    the status, the absence of a download reference before completion,
    and the loop counters. *)
Definition worker_invariant (tk : task) (s : sys) : Prop :=
  let st := _get_state (task_id tk) (tasks s) in
  match worker s with
  | WStart =>
      st !! "status" = Some (VStr "idle") ∧ st !! "download_filename" = None ∧
      st !! "eta_seconds" = None
  | WPrepare =>
      st !! "status" = Some (VStr "running") ∧
      st !! "download_filename" = None ∧ st !! "eta_seconds" = None
  | WDispatch c rows =>
      st !! "status" = Some (VStr "running") ∧
      st !! "download_filename" = None ∧ st !! "eta_seconds" = None ∧
      c_total c = Z.of_nat (length rows) ∧
      st !! "total" = Some (VInt (c_total c)) ∧
      st !! "current" = Some (VInt 0)
  | WCheck c _ idx rows =>
      st !! "status" = Some (VStr "running") ∧
      st !! "download_filename" = None ∧
      1 ≤ idx ∧ idx + Z.of_nat (length rows) = c_total c + 1 ∧
      st !! "total" = Some (VInt (c_total c)) ∧
      st !! "current" = Some (VInt (idx - 1))
  | WUnit c _ idx _ rest =>
      st !! "status" = Some (VStr "running") ∧
      st !! "download_filename" = None ∧
      1 ≤ idx ∧ idx + Z.of_nat (length rest) = c_total c ∧
      st !! "total" = Some (VInt (c_total c)) ∧
      st !! "current" = Some (VInt (idx - 1))
  | WCancel =>
      st !! "status" = Some (VStr "running") ∧
      st !! "download_filename" = None
  | WFinally | WSchedule | WExit =>
      st = ∅ ∨ is_terminal (st !! "status") = true
  end.

(** The stages of a cancellation that the worker is about to observe:
    [n] is the number of worker steps until the status is [canceled], and
    [cur] the value of [current] when the stages begin. *)
Definition canceling (w : world) (tk : task) (n : nat) (cur : Z) (s : sys)
  : Prop :=
  let st := _get_state (task_id tk) (tasks s) in
  st ≠ ∅ ∧
  truthy (st !! "cancel_requested") = true ∧
  st !! "download_filename" = None ∧
  ∃ cur', st !! "current" = Some (VInt cur') ∧ cur ≤ cur' ≤ cur + 1 ∧
    match n with
    | 0 => finished (worker s) = true ∧
           st !! "status" = Some (VStr "canceled")
    | 1 => worker s = WCancel
    | 2 => ∃ c start idx row rest, worker s = WCheck c start idx (row :: rest)
    | 3 => cur' = cur ∧ units_pending w (worker s) = true ∧
           ∀ c start idx rows, worker s ≠ WCheck c start idx rows
    | _ => False
    end%nat.

(** The shapes of the task's record once the worker has made its terminal
    update: evicted, failed, completed after the loop, completed without
    rows, canceled. *)
Definition terminal_record (w : world) (st : pydict) : Prop :=
  st = ∅ ∨
  (st !! "status" = Some (VStr "error") ∧
   st !! "finished_at" = Some (VFloat (w_time w TFinished))) ∨
  (st !! "status" = Some (VStr "done") ∧
   st !! "percent" = Some (VInt 100) ∧
   (∃ name, st !! "download_filename" = Some (VStr name)) ∧
   st !! "finished_at" = Some (VFloat (w_time w TFinished))) ∨
  (st !! "status" = Some (VStr "done") ∧
   st !! "percent" = Some (VInt 100) ∧
   st !! "download_filename" = None) ∨
  (st !! "status" = Some (VStr "canceled") ∧
   st !! "download_filename" = None).

(** ** The event of one poll *)

(** What one iteration of [event_stream] yields for the registry it
    polls. *)
Definition event_of_poll (tid : string) (T : registry) : sse_event :=
  if decide (_get_state tid T = ∅) then not_found_event tid
  else progress_event tid (_get_state tid T).

(** ** The tests of the header search and of the row selection *)

(** The test of the header search: [str(cell.value).strip().lower() ==
    "title"]. *)
Definition is_title (c : cellval) : bool :=
  String.eqb (lower (strip (py_str c))) "title".

(** The test of the row selection: [str(cell.value).strip()] is not
    empty. *)
Definition has_text (c : cellval) : bool :=
  negb (String.eqb (strip (py_str c)) "").

(** ** Progress counters *)

(** A record with its three counters in range. *)
Definition progress_record (st : pydict) : Prop :=
  ∃ p cur tot,
    st !! "percent" = Some (VInt p) ∧
    st !! "current" = Some (VInt cur) ∧
    st !! "total" = Some (VInt tot) ∧
    0 ≤ p ≤ 100 ∧ 0 ≤ cur ≤ tot.

(** The percentage in the record while the worker is at a program
    point. *)
Definition progress_invariant (tk : task) (s : sys) : Prop :=
  let st := _get_state (task_id tk) (tasks s) in
  match worker s with
  | WStart | WPrepare =>
      st !! "percent" = Some (VInt 0) ∧ st !! "current" = Some (VInt 0) ∧
      st !! "total" = Some (VInt 0)
  | WDispatch _ _ => st !! "percent" = Some (VInt 0)
  | WCheck c _ idx _ | WUnit c _ idx _ _ =>
      st !! "percent" = Some (VInt ((idx - 1) * 100 ÷ c_total c))
  | WCancel => progress_record st
  | WFinally | WSchedule | WExit => st = ∅ ∨ progress_record st
  end.

(** ** The sheet that the worker writes *)

(** The write of one iteration (lines 92-94), and of the iterations over
    [rows]. *)
Definition translate_row (w : world) (col ins : Z) (ws : worksheet) (row : Z)
  : worksheet :=
  set_cell ws row ins (CStr (w_translate w (py_str (cell_value ws row col)))).

Definition translate_rows (w : world) (col ins : Z) (ws : worksheet)
    (rows : list Z) : worksheet :=
  foldl (translate_row w col ins) ws rows.

(** ** The output file *)

(** The effect is the write of an output file. *)
Definition is_save (e : effect) : bool :=
  match e with EffSave _ _ => true | _ => false end.

(** The effects of the [finally] clause that have happened when the worker
    is at a program point. *)
Definition finalization_effects (w : world) (tk : task) (pc : wpc)
  : list effect :=
  match pc with
  | WSchedule => [EffRelease (dirname (file_path tk)) (w_release w)]
  | WExit => [EffRelease (dirname (file_path tk)) (w_release w);
              EffSchedule (task_id tk)]
  | _ => []
  end.

(** The sheet held by the worker after the rows [done] of the loop. *)
Definition sheet_after (w : world) (c : wctx) (done rest : list Z) : Prop :=
  ∃ c0 rows0,
    prepare w = inr (c0, rows0) ∧ rows0 = (done ++ rest)%list ∧
    c_title c = c_title c0 ∧ c_insert c = c_insert c0 ∧
    c_total c = c_total c0 ∧
    c_ws c = translate_rows w (c_title c0) (c_insert c0) (c_ws c0) done.

(** The output file of a run: written once, by the transition to [done]
    after the loop, with every selected row translated; the record names
    it exactly when it has been written. *)
Definition output_invariant (w : world) (tk : task) (s : sys) : Prop :=
  let st := _get_state (task_id tk) (tasks s) in
  (match worker s with
   | WDispatch c rows => prepare w = inr (c, rows)
   | WCheck c _ _ rest => ∃ done, sheet_after w c done rest
   | WUnit c _ _ row rest => ∃ done, sheet_after w c done (row :: rest)
   | _ => True
   end) ∧
  ∃ saved,
    effects s = (saved ++ finalization_effects w tk (worker s))%list ∧
    ((saved = [] ∧ st !! "download_filename" = None) ∨
     (finished (worker s) = true ∧
      (st = ∅ ∨
       (st !! "download_filename" = Some (VStr (output_filename_of tk)) ∧
        st !! "status" = Some (VStr "done") ∧
        st !! "percent" = Some (VInt 100) ∧
        st !! "finished_at" = Some (VFloat (w_time w TFinished)))) ∧
      ∃ c0 rows0,
        prepare w = inr (c0, rows0) ∧
        saved = [EffSave (path_join (w_tmpdir w) (output_filename_of tk))
                   (translate_rows w (c_title c0) (c_insert c0) (c_ws c0)
                      rows0)])).

(** ** The download handler [download_file] *)

(** [p] lies under the directory [base]. *)
Definition under (base p : string) : bool := String.prefix (base ++ "/") p.

(** The files of the temporary directory before and after an effect of a
    worker: [wb.save] writes a file; a successful [shutil.rmtree] removes
    what lies under the scratch directory; a release that fails part-way
    (its errors ignored, or an exception raised) may have removed some of
    the files under that directory; nothing else changes. *)
Inductive fs_step (fs : gmap string worksheet)
  : effect → gmap string worksheet → Prop :=
| fs_save path ws :
    fs_step fs (EffSave path ws) (<[path := ws]> fs)
| fs_absent base :
    fs_step fs (EffRelease base RelAbsent) fs
| fs_removed base :
    fs_step fs (EffRelease base RelRemoved)
            (filter (λ kv, under base kv.1 = false) fs)
| fs_partly base o fs' :
    o = RelIgnored ∨ o = RelRaised →
    (∀ p, under base p = false → fs' !! p = fs !! p) →
    fs' ⊆ fs →
    fs_step fs (EffRelease base o) fs'
| fs_schedule tid :
    fs_step fs (EffSchedule tid) fs.

Inductive fs_run : gmap string worksheet → list effect →
                   gmap string worksheet → Prop :=
| fs_run_nil fs : fs_run fs [] fs
| fs_run_cons fs e fs1 effs fs2 :
    fs_step fs e fs1 → fs_run fs1 effs fs2 → fs_run fs (e :: effs) fs2.

(** The files after an effect when a release that fails removes
    nothing. *)
Definition run_effect (fs : gmap string worksheet) (e : effect)
  : gmap string worksheet :=
  match e with
  | EffSave path ws => <[path := ws]> fs
  | EffRelease base RelRemoved => filter (λ kv, under base kv.1 = false) fs
  | _ => fs
  end.

Definition files_after (fs : gmap string worksheet) (effs : list effect)
  : gmap string worksheet :=
  foldl run_effect fs effs.

Inductive download_result :=
| SendFile (path download_name : string) (content : worksheet)   (* 200 *)
| FileMissing.                                                   (* 404 *)

(** [download_file], on the files [fs]. *)
Definition download_file (tmpdir : string) (fs : gmap string worksheet)
    (filename : string) : download_result :=
  let file_path := path_join tmpdir filename in
  match fs !! file_path with
  | Some ws => SendFile file_path filename ws
  | None => FileMissing
  end.

(** The effect leaves the file at [path] as it is: it neither writes
    [path] nor releases a directory above it. *)
Definition keeps (path : string) (e : effect) : bool :=
  match e with
  | EffSave p _ => negb (String.eqb p path)
  | EffRelease base _ => negb (under base path)
  | EffSchedule _ => true
  end.

(** [l] is an interleaving of [l1] and [l2]. *)
Inductive interleaving {A} : list A → list A → list A → Prop :=
| interleaving_nil : interleaving [] [] []
| interleaving_left x l1 l2 l :
    interleaving l1 l2 l → interleaving (x :: l1) l2 (x :: l)
| interleaving_right x l1 l2 l :
    interleaving l1 l2 l → interleaving l1 (x :: l2) (x :: l).

(** The [download_url] entry of an event's payload. *)
Definition ev_download_url (e : sse_event) : option pyval :=
  snd <$> List.find (λ kv, String.eqb (fst kv) "download_url") (ev_data e).

(** ** Runs without failure and without cancellation *)

(** The state of a run in which nothing is raised and no cancellation is
    recorded: the flag is unset, the worker never reaches the cancel
    branch, and once it is past its terminal update the record is that of
    a completed task. *)
Definition clean_run (w : world) (tk : task) (n : Z) (s : sys) : Prop :=
  let st := _get_state (task_id tk) (tasks s) in
  st ≠ ∅ ∧
  truthy (st !! "cancel_requested") = false ∧
  match worker s with
  | WCancel => False
  | WFinally | WSchedule | WExit =>
      st !! "status" = Some (VStr "done") ∧
      st !! "current" = Some (VInt n) ∧
      st !! "total" = Some (VInt n) ∧
      st !! "percent" = Some (VInt 100) ∧
      st !! "eta_seconds" = Some (VInt 0) ∧
      st !! "download_filename" = Some (VStr (output_filename_of tk)) ∧
      st !! "finished_at" = Some (VFloat (w_time w TFinished))
  | _ => True
  end.

(** ** The upload handler [upload_file] *)

(** [s] contains no [c]. *)
Definition lacks (c : ascii) (s : string) : Prop := after c s = None.

(** [d] is a directory name that [os.path.join] extends with a slash:
    not empty and not ending in a slash. *)
Definition plain_directory (d : string) : Prop :=
  ∃ a r, String.rev d = String a r ∧ a ≠ "/"%char.

(** [app.config['MAX_CONTENT_LENGTH']] (line 15), in bytes. *)
Definition MAX_CONTENT_LENGTH : Z := 64 * 1024 * 1024.

(** The upload request, a POST (other methods do not reach the handler):
    the length of its body and the [file] part of its form, if any, with
    the file name of that part. *)
Record upload_request := UploadRequest {
  content_length : Z;
  file_part : option string
}.

(** What [upload_file] takes from outside: werkzeug's [secure_filename],
    [tempfile.mkdtemp] (the text of its exception, or the new directory),
    [file.save] (the text of its exception, if any) and the fresh
    identifier [uuid.uuid4().hex[:12]]. *)
Record upload_env := UploadEnv {
  u_secure_filename : string → string;
  u_mkdtemp : string + string;
  u_save : option string;
  u_uuid : string
}.

(** [s.endswith(suffix)] *)
Definition endswith (s suffix : string) : bool :=
  String.prefix (String.rev suffix) (String.rev s).

(** The answer of [upload_file]: one of its own JSON responses, or the
    exception [RequestEntityTooLarge] that [request.files] raises at line
    178, outside the [try], for a body longer than [MAX_CONTENT_LENGTH],
    and that Flask answers with status 413. *)
Inductive upload_response :=
| Json (r : response)
| RequestEntityTooLarge.

Definition no_file_selected : response :=
  Resp 400 [("error", VStr "没有选择文件")].
Definition not_a_workbook : response :=
  Resp 400 [("error", VStr "请上传Excel文件(.xlsx)")].
Definition upload_failed (msg : string) : response :=
  Resp 500 [("error", VStr msg)].
Definition upload_accepted (task_id : string) : response :=
  Resp 202 [("success", VBool true); ("task_id", VStr task_id)].

(** [upload_file]: the answer, and the task that was started, if any,
    with the process it runs in.  A file part without file name is falsy,
    so that [not file] and [file.filename == ''] are the same test. *)
Definition upload_file (e : upload_env) (req : upload_request) (T : registry)
  : upload_response * option (task * sys) :=
  if MAX_CONTENT_LENGTH <? content_length req
  then (RequestEntityTooLarge, None)
  else
    match file_part req with
    | None => (Json no_file_selected, None)
    | Some name =>
        if String.eqb name "" then (Json no_file_selected, None)
        else if negb (endswith name ".xlsx") then (Json not_a_workbook, None)
        else
          let filename := u_secure_filename e name in
          match u_mkdtemp e with
          | inl msg => (Json (upload_failed msg), None)
          | inr temp_dir =>
              let file_path := path_join temp_dir filename in
              match u_save e with
              | Some msg => (Json (upload_failed msg), None)
              | None =>
                  let tk := Task file_path filename (u_uuid e) in
                  (Json (upload_accepted (u_uuid e)),
                   Some (tk, start_background_task tk T))
              end
          end
    end.

(** The status code of the answer. *)
Definition upload_code (r : upload_response) : Z :=
  match r with
  | Json (Resp code _) => code
  | RequestEntityTooLarge => 413
  end.

(** ** Sample workbooks, worlds and schedules *)

Definition two_row_sheet : worksheet :=
  [[CStr "id"; CStr "Title"]; [CInt 1; CStr "hello"]; [CInt 2; CStr "world"]].

Definition one_row_sheet : worksheet :=
  [[CStr "id"; CStr "Title"]; [CInt 1; CStr "hello"]].

Definition header_only_sheet : worksheet :=
  [[CStr "id"; CStr "Title"]].

Definition sample_clock (t : tsite) : Q :=
  match t with
  | TStarted => 100
  | TLoopStart => 101
  | TUnit idx => inject_Z (101 + idx)
  | TFinished => 110
  end%Q.

Definition no_fault (_ : site) : option string := None.

(** The write of row 3 is refused. *)
Definition fault_at_row_3 (st : site) : option string :=
  match st with
  | SiteUnit 3 => Some "IllegalCharacterError"
  | _ => None
  end.

Definition sample_world (ws : worksheet) (fault : site → option string)
    (rel : release_outcome) : world :=
  World (inr (Some ws)) (λ text, "zh:" ++ text) fault sample_clock "/tmp" rel.

Definition sample_task : task :=
  Task "/tmp/tmpk3v9/book.xlsx" "book.xlsx" "3f9a1c0b7d2e".

Definition sample_start : sys := start_background_task sample_task ∅.

(** The worker alone, [n] steps. *)
Definition worker_only (n : nat) : list event := replicate n EvWorker.

(** A cancellation request served between two steps of the worker. *)
Definition cancel_request : list event := [EvCancelCheck; EvCancelCommit].

(** The sheet written by the complete run over two rows. *)
Definition two_row_output : worksheet :=
  [[CStr "id"; CStr "Title"; CStr "中文"];
   [CInt 1; CStr "hello"; CStr "zh:hello"];
   [CInt 2; CStr "world"; CStr "zh:world"]].

(** * Properties *)

(** ** The registry calls *)

Section registry_facts.
Implicit Types (T : registry) (kv st : pydict) (tid k : string).

Lemma union_nonempty kv st : st ≠ ∅ → kv ∪ st ≠ ∅.
Proof.
  intros Hst Hu. apply Hst, map_empty. intros k.
  apply (f_equal (.!! k)) in Hu. rewrite lookup_empty in Hu.
  by apply lookup_union_None in Hu as [_ ?].
Qed.

Lemma update_absent tid kv T : T !! tid = None → _safe_update tid kv T = T.
Proof. unfold _safe_update. by intros ->. Qed.

Lemma snapshot_absent tid T : T !! tid = None → _get_state tid T = ∅.
Proof. unfold _get_state. by intros ->. Qed.

Lemma update_lookup_other tid tid' kv T :
  tid ≠ tid' → _safe_update tid kv T !! tid' = T !! tid'.
Proof.
  intros Hne. unfold _safe_update.
  destruct (T !! tid) as [st|]; [|done].
  destruct (decide (st = ∅)); [done|]. by rewrite lookup_insert_ne.
Qed.

(** A snapshot taken after an update. *)
Lemma snapshot_update tid kv T :
  _get_state tid (_safe_update tid kv T) =
    if decide (_get_state tid T = ∅) then ∅ else kv ∪ _get_state tid T.
Proof.
  unfold _get_state, _safe_update.
  destruct (T !! tid) as [st|] eqn:E.
  - destruct (decide (st = ∅)) as [->|Hne].
    + rewrite E. by rewrite !decide_True.
    + rewrite lookup_insert_eq.
      rewrite (decide_False (P := kv ∪ st = ∅)) by by apply union_nonempty.
      by rewrite (decide_False (P := st = ∅)).
  - rewrite E. by rewrite decide_True.
Qed.

Lemma snapshot_cleanup tid T : _get_state tid (_cleanup tid T) = ∅.
Proof. unfold _get_state, _cleanup. by rewrite lookup_delete_eq. Qed.

Lemma update_fields_other kv st k : kv !! k = None → (kv ∪ st) !! k = st !! k.
Proof. intros. by apply lookup_union_r. Qed.

Lemma update_fields_set kv st k v : kv !! k = Some v → (kv ∪ st) !! k = Some v.
Proof. intros. by apply lookup_union_Some_l. Qed.

Lemma cancel_check_absent tid T :
  _get_state tid T = ∅ → cancel_check tid T = Some not_found.
Proof. unfold cancel_check. intros ->. by rewrite decide_True. Qed.

Lemma cancel_check_terminal tid T :
  is_terminal (_get_state tid T !! "status") = true →
  cancel_check tid T = Some already_finished.
Proof.
  unfold cancel_check. intros Ht.
  destruct (decide (_get_state tid T = ∅)) as [E|_].
  - rewrite E in Ht. discriminate.
  - by rewrite Ht.
Qed.

Lemma cancel_check_proceeds tid T :
  cancel_check tid T = None →
  _get_state tid T ≠ ∅ ∧ is_terminal (_get_state tid T !! "status") = false.
Proof.
  unfold cancel_check.
  destruct (decide (_get_state tid T = ∅)); [done|].
  destruct (is_terminal _); [done|]. by split.
Qed.
End registry_facts.

(** ** Operations on an identifier *)

Lemma apply_op_absent tid op T :
  T !! tid = None → apply_op tid op T = (T, absent_result op).
Proof.
  intros Habs. destruct op; simpl.
  - by rewrite update_absent.
  - by rewrite snapshot_absent.
  - unfold task_status. rewrite snapshot_absent by done. by rewrite decide_True.
  - unfold task_cancel. rewrite cancel_check_absent; [done|].
    by apply snapshot_absent.
Qed.

(** C6.  For an identifier that is not in the registry (never created, or
    evicted), every sequence of updates, snapshots, status queries and
    cancellation requests leaves the registry as it is, so no entry is
    created; each update does nothing, each snapshot is the empty state,
    each status query and cancellation request answers 404 not found. *)
Theorem absent_task_stays_absent (tid : string) (ops : list registry_op) (T : registry) :
  T !! tid = None →
  apply_ops tid ops T = (T, absent_result <$> ops).
Proof.
  intros Habs. induction ops as [|op ops IH]; [done|].
  simpl. rewrite apply_op_absent by done. by rewrite IH.
Qed.

Lemma absent_task_stays_absent_witness :
  apply_ops "f00d" [OpUpdate {[ "status" := VStr "running" ]}; OpSnapshot;
                    OpCancel; OpStatus; OpUpdate cancel_fields]
            {[ "abc123" := cancel_fields ]}
  = ({[ "abc123" := cancel_fields ]},
     [RNothing; RState ∅; RResponse not_found; RResponse not_found; RNothing]).
Proof.
  apply (absent_task_stays_absent "f00d"). reflexivity.
Defined.

(** ** Cancellation requests *)

Lemma cancel_fields_status : cancel_fields !! "status" = None.
Proof. reflexivity. Qed.

Lemma cancel_fields_flag : cancel_fields !! "cancel_requested" = Some (VBool true).
Proof. reflexivity. Qed.

Lemma cancel_commit_twice tid T :
  cancel_commit tid (cancel_commit tid T) = cancel_commit tid T.
Proof.
  unfold cancel_commit, _safe_update.
  destruct (T !! tid) as [st|] eqn:E.
  - destruct (decide (st = ∅)) as [->|Hne].
    + rewrite E. by rewrite decide_True.
    + rewrite lookup_insert_eq.
      rewrite decide_False by by apply union_nonempty.
      rewrite insert_insert_eq. f_equal.
      by rewrite (assoc_L (∪)), (idemp_L (∪)).
  - by rewrite E.
Qed.

(** C7.  A cancellation request issued twice leaves the registry as one
    request does and is answered alike; on a task whose status is terminal
    it changes nothing and answers 200 success; for an identifier without
    state it answers 404 not found. *)
Theorem cancel_request_idempotent (tid : string) (T : registry) :
  (let '(T1, r1) := task_cancel tid T in
   task_cancel tid T1 = (T1, r1)) ∧
  (is_terminal (_get_state tid T !! "status") = true →
   task_cancel tid T = (T, already_finished)) ∧
  (T !! tid = None → task_cancel tid T = (T, not_found)).
Proof.
  split; [|split].
  - unfold task_cancel.
    destruct (cancel_check tid T) as [r|] eqn:E.
    + by rewrite E.
    + apply cancel_check_proceeds in E as [Hne Hnt].
      assert (cancel_check tid (cancel_commit tid T) = None) as ->.
      { unfold cancel_check, cancel_commit. rewrite snapshot_update.
        rewrite (decide_False (P := _get_state tid T = ∅)) by done.
        rewrite decide_False by by apply union_nonempty.
        rewrite update_fields_other by apply cancel_fields_status.
        by rewrite Hnt. }
      by rewrite cancel_commit_twice.
  - intros Ht. unfold task_cancel. by rewrite cancel_check_terminal.
  - intros Habs. unfold task_cancel. rewrite cancel_check_absent; [done|].
    by apply snapshot_absent.
Qed.

Lemma cancel_request_idempotent_witness :
  task_cancel "abc123" {[ "abc123" := {[ "status" := VStr "done" ]} ]}
    = ({[ "abc123" := {[ "status" := VStr "done" ]} ]}, already_finished) ∧
  task_cancel "f00d" {[ "abc123" := {[ "status" := VStr "done" ]} ]}
    = ({[ "abc123" := {[ "status" := VStr "done" ]} ]}, not_found).
Proof.
  split.
  - apply (cancel_request_idempotent "abc123"). reflexivity.
  - apply (cancel_request_idempotent "f00d"). reflexivity.
Defined.

(** ** The progress stream *)

Lemma progress_event_status tid st :
  is_terminal (ev_status (progress_event tid st)) = is_terminal (st !! "status").
Proof. unfold ev_status. simpl. by destruct (st !! "status"). Qed.

Lemma progress_event_terminal tid st :
  terminal_snapshot (progress_event tid st) = is_terminal (st !! "status").
Proof. unfold terminal_snapshot. by rewrite progress_event_status. Qed.

Lemma event_stream_running tid pre rest :
  Forall (running_poll tid) pre →
  event_stream tid (pre ++ rest)%list =
    (((λ T, progress_event tid (_get_state tid T)) <$> pre)
       ++ (event_stream tid rest).1,
     (event_stream tid rest).2)%list.
Proof.
  induction 1 as [|T pre [Hne Hrun] _ IH]; simpl.
  - by destruct (event_stream tid rest).
  - rewrite decide_False by done. rewrite Hrun, IH. done.
Qed.

(** C8.  A progress stream yields one snapshot for every poll that finds
    the task running and, at the first poll that finds it with a terminal
    status, the snapshot of that status, after which the generator has
    returned whatever the later polls would have found: the events are
    the non-terminal snapshots followed by exactly one terminal snapshot.
    As long as every poll finds the task running the stream stays open
    with one snapshot per poll.  In the events of any stream a snapshot
    with a terminal status is the last event and the generator has
    returned after it, so at most one terminal snapshot is emitted; when
    the identifier is unknown at the first poll the stream is exactly one
    task-not-found event and is closed; that event carries no snapshot
    event name, while every event of a known task is a named snapshot. *)
Theorem progress_stream_ends (tid : string) (polls : list registry) :
  (∀ i e, (event_stream tid polls).1 !! i = Some e →
          terminal_snapshot e = true →
          length (event_stream tid polls).1 = S i ∧
          (event_stream tid polls).2 = true) ∧
  (length (List.filter terminal_snapshot (event_stream tid polls).1) ≤ 1)%nat ∧
  (∀ T rest, polls = T :: rest → _get_state tid T = ∅ →
             event_stream tid polls = ([not_found_event tid], true)) ∧
  (is_snapshot (not_found_event tid) = false ∧
   ∀ st, is_snapshot (progress_event tid st) = true) ∧
  (∀ pre T post,
     polls = (pre ++ T :: post)%list →
     Forall (running_poll tid) pre →
     _get_state tid T ≠ ∅ →
     is_terminal (_get_state tid T !! "status") = true →
     let snapshot T' := progress_event tid (_get_state tid T') in
     event_stream tid polls = ((snapshot <$> pre) ++ [snapshot T], true)%list ∧
     terminal_snapshot (snapshot T) = true ∧
     Forall (λ e, terminal_snapshot e = false) (snapshot <$> pre)) ∧
  (Forall (running_poll tid) polls →
   event_stream tid polls =
     ((λ T, progress_event tid (_get_state tid T)) <$> polls, false)).
Proof.
  split; [|split; [|split; [|split; [|split]]]].
  - induction polls as [|T rest IH]; intros i e; simpl; [done|].
    destruct (decide (_get_state tid T = ∅)) as [E|Hne].
    + destruct i; simpl; [|done]. intros [= <-]. done.
    + destruct (is_terminal (_get_state tid T !! "status")) eqn:Ht.
      * destruct i; simpl; [|done]. done.
      * destruct (event_stream tid rest) as [es closed] eqn:Hes. simpl in *.
        destruct i; simpl.
        -- intros [= <-]. rewrite progress_event_terminal. congruence.
        -- intros He Hte. destruct (IH _ _ He Hte) as [-> ->]. done.
  - induction polls as [|T rest IH]; simpl; [lia|].
    destruct (decide (_get_state tid T = ∅)) as [E|Hne]; [simpl; lia|].
    destruct (is_terminal (_get_state tid T !! "status")) eqn:Ht.
    + simpl. rewrite progress_event_terminal, Ht. simpl. lia.
    + destruct (event_stream tid rest) as [es closed] eqn:Hes. simpl in *.
      rewrite progress_event_terminal, Ht. done.
  - intros T rest -> E. simpl. by rewrite decide_True.
  - split; [done|]. done.
  - intros pre T post -> Hpre Hne Hend snapshot.
    rewrite event_stream_running by done. simpl.
    rewrite decide_False by done. rewrite Hend. simpl.
    split; [done|]. split.
    + unfold snapshot. by rewrite progress_event_terminal.
    + apply Forall_fmap. eapply Forall_impl; [exact Hpre|].
      intros T' [_ Hrun]. simpl. unfold snapshot.
      by rewrite progress_event_terminal.
  - intros Hall.
    rewrite <- (app_nil_r polls) at 1.
    rewrite event_stream_running by done. simpl. by rewrite app_nil_r.
Qed.

(** A task that finishes between the first and the second poll: one
    running snapshot, the terminal snapshot, and the stream is closed
    whatever follows. *)
Lemma progress_stream_ends_witness :
  let running : registry := {[ "abc123" := {[ "status" := VStr "running" ]} ]} in
  let done : registry := {[ "abc123" := {[ "status" := VStr "done" ]} ]} in
  event_stream "abc123" [running; done; ∅] =
    ([progress_event "abc123" {[ "status" := VStr "running" ]};
      progress_event "abc123" {[ "status" := VStr "done" ]}], true).
Proof.
  intros running done.
  destruct (progress_stream_ends "abc123" [running; done; ∅])
    as (_ & _ & _ & _ & Hend & _).
  destruct (Hend [running] done [∅]) as (Hstream & _).
  - reflexivity.
  - repeat constructor. vm_compute. discriminate.
  - vm_compute. discriminate.
  - reflexivity.
  - exact Hstream.
Defined.

(** A stream whose polls meet a terminal or missing task has returned. *)
Lemma progress_stream_closes tid polls :
  Exists (λ T, _get_state tid T = ∅ ∨
               is_terminal (_get_state tid T !! "status") = true) polls →
  (event_stream tid polls).2 = true.
Proof.
  induction polls as [|T rest IH]; intros Hex; [by inversion Hex|].
  simpl. destruct (decide (_get_state tid T = ∅)) as [E|Hne]; [done|].
  destruct (is_terminal (_get_state tid T !! "status")) eqn:Ht; [done|].
  destruct (event_stream tid rest) as [es closed] eqn:Hes. simpl in *.
  inversion Hex as [?? [?|?]|]; subst; [done|congruence|]. by apply IH.
Qed.

(** ** Strings, paths and sheets on examples *)

Example strip_title : lower (strip "  TiTle	 ") = "title".
Proof. reflexivity. Qed.

(** For every character up to U+30FF, which includes every whitespace
    character: [strip] removes it from both ends of a string exactly when
    [str.isspace] holds of it. *)
Example strip_whitespace_table :
  N.iter 12544 (λ '(c, ok), (N.succ c, ok && strip_as_isspace c)) (0%N, true)
  = (12544%N, true).
Proof. vm_compute. reflexivity. Qed.

(** A no-break space and an ideographic space around a word are
    stripped; characters that share bytes with them are not. *)
Example strip_unicode_whitespace :
  strip (utf8 160 ++ " Title" ++ utf8 12288) = "Title" ∧
  strip (utf8 224 ++ utf8 12289) = utf8 224 ++ utf8 12289.
Proof. vm_compute. done. Qed.

Example dirname_of_upload : dirname "/tmp/tmpk3v9/book.xlsx" = "/tmp/tmpk3v9".
Proof. reflexivity. Qed.

Example dirname_of_root_file : dirname "/book.xlsx" = "/".
Proof. reflexivity. Qed.

Example dirname_double_slash : dirname "/a//b" = "/a".
Proof. reflexivity. Qed.

Example output_name_of_upload :
  output_filename_of (Task "/tmp/tmpk3v9/sales.v2.xlsx" "sales.v2.xlsx" "0a")
  = "sales.v2_中文翻译.xlsx".
Proof. reflexivity. Qed.

Example splitext_hidden_file : splitext_root ".xlsx" = ".xlsx".
Proof. reflexivity. Qed.

Example header_search :
  find_title (row_cells [[CStr "id"; CStr " TITLE "]; [CInt 1; CStr "a"; CNone]] 1) 1
  = Some 2.
Proof. vm_compute. reflexivity. Qed.

(** A blank title cell is skipped; a missing one reads ["None"] and is
    kept. *)
Example row_selection :
  rows_to_translate
    [[CStr "id"; CStr "Title"]; [CInt 1; CStr "a"]; [CInt 2; CStr "  "]; [CInt 3]] 2
  = [2; 4].
Proof. vm_compute. reflexivity. Qed.

(** A header cell "Title" followed by a no-break space is the title
    column, and a title cell holding only an ideographic space is
    blank. *)
Example header_search_unicode :
  let ws := [[CStr ("Title" ++ utf8 160); CStr "Title"]; [CStr "x"; CStr " "]] in
  find_title (row_cells ws 1) 1 = Some 1 ∧ rows_to_translate ws 1 = [2].
Proof. vm_compute. done. Qed.

Example row_selection_unicode :
  rows_to_translate
    [[CStr "id"; CStr "Title"]; [CInt 1; CStr (utf8 12288)]; [CInt 2; CStr "a"]] 2
  = [3].
Proof. vm_compute. reflexivity. Qed.

Example column_insertion :
  set_cell (insert_cols [[CStr "id"; CStr "Title"; CStr "x"]; [CInt 1]] 3) 1 3
           (CStr "中文")
  = [[CStr "id"; CStr "Title"; CStr "中文"; CStr "x"]; [CInt 1]].
Proof. vm_compute. reflexivity. Qed.

(** ** The prepared sheet *)

(** Inserting the translation column and writing its header leaves the
    title column of the data rows, and the number of rows, as they
    are. *)

Lemma find_title_lower_bound cells idx col :
  find_title cells idx = Some col → idx ≤ col.
Proof.
  revert idx. induction cells as [|c cells IH]; intros idx; simpl; [done|].
  destruct (String.eqb _ _).
  - intros [= ->]. lia.
  - intros H. apply IH in H. lia.
Qed.

Lemma pad_row_lookup (ws : worksheet) (j : nat) :
  (1 ≤ j)%nat → pad 1 [] ws !! j = ws !! j.
Proof.
  intros Hj. unfold pad. destruct ws as [|row ws]; simpl.
  - by destruct j; [lia|].
  - by rewrite app_nil_r.
Qed.

Lemma insert_cols_lookup (ws : worksheet) (col : Z) (j k : nat) :
  (k < Z.to_nat col)%nat →
  insert_cols ws (col + 1) !! j ≫= (.!! k) = ws !! j ≫= (.!! k).
Proof.
  intros Hk. unfold insert_cols. rewrite list_lookup_fmap.
  destruct (ws !! j) as [cells|]; simpl; [|done].
  replace (Z.to_nat (col + 1 - 1)) with (Z.to_nat col) by lia.
  destruct (Z.to_nat col <? length cells)%nat eqn:E; [|done].
  apply Nat.ltb_lt in E.
  rewrite lookup_app_l by (rewrite length_take; lia).
  by rewrite lookup_take_lt.
Qed.

Lemma prepared_cell_value (ws : worksheet) (col r : Z) (v : cellval) :
  1 ≤ col → 2 ≤ r →
  cell_value (set_cell (insert_cols ws (col + 1)) 1 (col + 1) v) r col =
    cell_value ws r col.
Proof.
  intros Hcol Hr. unfold cell_value, set_cell. f_equal.
  change (Z.to_nat (1 - 1)) with 0%nat.
  rewrite list_lookup_alter_ne by lia.
  rewrite pad_row_lookup by lia.
  apply insert_cols_lookup. lia.
Qed.

Lemma prepared_max_row (ws : worksheet) (col : Z) (v : cellval) :
  max_row (set_cell (insert_cols ws (col + 1)) 1 (col + 1) v) = max_row ws.
Proof.
  unfold max_row, set_cell, insert_cols, pad.
  rewrite length_alter, length_app, length_replicate, length_fmap. lia.
Qed.

Lemma rows_to_translate_prepared (ws : worksheet) (col : Z) (v : cellval) :
  1 ≤ col →
  rows_to_translate (set_cell (insert_cols ws (col + 1)) 1 (col + 1) v) col =
    rows_to_translate ws col.
Proof.
  intros Hcol. unfold rows_to_translate. rewrite prepared_max_row.
  apply List.filter_ext_in. intros r Hr.
  apply list_elem_of_In, elem_of_seqZ in Hr.
  by rewrite prepared_cell_value by lia.
Qed.

(** ** Progress arithmetic *)

Lemma elapsed_floor now start : (1 # 1000000 <= elapsed_of now start)%Q.
Proof.
  unfold elapsed_of, pymax.
  destruct (Qle_bool _ _) eqn:E.
  - by apply Qle_bool_iff.
  - apply Qle_refl.
Qed.

Lemma elapsed_positive now start : (0 < elapsed_of now start)%Q.
Proof. eapply Qlt_le_trans; [|apply elapsed_floor]. reflexivity. Qed.

Lemma pydiv_positive a b : (0 < b)%Q → pydiv a b = Some (a / b)%Q.
Proof.
  intros Hb. unfold pydiv.
  destruct (Qeq_bool b 0) eqn:E; [|done].
  apply Qeq_bool_iff in E. rewrite E in Hb. by apply Qlt_irrefl in Hb.
Qed.

Lemma py_int_nonneg q : (0 <= q)%Q → 0 ≤ py_int q.
Proof.
  unfold Qle, py_int. simpl. intros Hq. apply Z.quot_pos; lia.
Qed.

Lemma eta_of_nonneg total idx elapsed :
  1 ≤ idx → idx ≤ total → (0 < elapsed)%Q →
  ∃ eta, eta_of total idx elapsed = Some eta ∧ 0 ≤ eta.
Proof.
  intros Hidx Htot Hel. unfold eta_of.
  rewrite (proj2 (Z.eqb_neq idx 0)) by lia.
  rewrite (pydiv_positive _ elapsed) by done. simpl.
  assert (0 < inject_Z idx / elapsed)%Q as Hrate.
  { apply Qlt_shift_div_l; [done|]. rewrite Qmult_0_l.
    unfold Qlt. simpl. lia. }
  rewrite pydiv_positive by done. simpl.
  eexists. split; [done|]. apply py_int_nonneg.
  apply Qle_shift_div_l; [done|]. rewrite Qmult_0_l.
  unfold Qle. simpl. lia.
Qed.

Lemma percent_of_defined total idx :
  1 ≤ total → ∃ pct, percent_of total idx = Some pct.
Proof.
  intros Htot. unfold percent_of. rewrite pydiv_positive; [by eexists|].
  unfold Qlt. simpl. lia.
Qed.

(** ** The worker's steps *)

Lemma count_schedules_app effs effs' :
  count_schedules (effs ++ effs') = (count_schedules effs + count_schedules effs')%nat.
Proof. unfold count_schedules. by rewrite List.filter_app, length_app. Qed.

Lemma count_releases_app effs effs' :
  count_releases (effs ++ effs') = (count_releases effs + count_releases effs')%nat.
Proof. unfold count_releases. by rewrite List.filter_app, length_app. Qed.

Lemma count_worker_app evs evs' :
  count_worker (evs ++ evs') = (count_worker evs + count_worker evs')%nat.
Proof. unfold count_worker. by rewrite List.filter_app, length_app. Qed.

Section process.
Variables (w : world) (tk : task).
Implicit Types (s : sys) (T : registry) (pc : wpc) (k : string).

Lemma unit_of_work_inr c start idx row c' kv :
  unit_of_work w c start idx row = inr (c', kv) →
  ∃ eta pct,
    w_fault w (SiteUnit row) = None ∧
    eta_of (c_total c) idx (elapsed_of (w_time w (TUnit idx)) start) = Some eta ∧
    percent_of (c_total c) idx = Some pct ∧
    c' = WCtx (set_cell (c_ws c) row (c_insert c)
                 (CStr (w_translate w
                          (py_str (cell_value (c_ws c) row (c_title c))))))
              (c_title c) (c_insert c) (c_total c) ∧
    kv = progress_fields (c_total c) idx eta pct.
Proof.
  unfold unit_of_work.
  destruct (w_fault w (SiteUnit row)); [done|].
  destruct (eta_of _ _ _) as [eta|]; [|done].
  destruct (percent_of _ _) as [pct|]; [|done].
  intros [= <- <-]. by exists eta, pct.
Qed.

(** Every step of [worker_step] is one of the transitions. *)
Lemma worker_step_wtrans pc T :
  ∃ pc' upd effs,
    wtrans w tk T pc pc' upd effs ∧
    worker_step w tk pc T = (pc', apply_update (task_id tk) upd T, effs).
Proof.
  destruct pc as [| |c rows|c start idx rows| |c start idx row rest| | |];
    unfold worker_step, try_step.
  - eexists _, _, _. split; [constructor|done].
  - destruct (prepare w) as [msg|[c rows]] eqn:E.
    + eexists _, _, _. split; [by apply wt_prepare_raise|done].
    + eexists _, _, _. split; [by apply wt_prepare|done].
  - destruct (c_total c =? 0) eqn:E.
    + apply Z.eqb_eq in E. eexists _, _, _. split; [by apply wt_nothing|done].
    + apply Z.eqb_neq in E. eexists _, _, _. split; [by apply wt_enter|done].
  - destruct rows as [|row rest].
    + destruct (save_output w tk c) as [msg|[name effs]] eqn:E.
      * eexists _, _, _. split; [by eapply wt_save_raise|done].
      * unfold save_output in E.
        destruct (w_fault w SiteSave) eqn:F; [done|].
        injection E as <- <-.
        eexists _, _, _. split; [by apply wt_done|done].
    + destruct (truthy _) eqn:E.
      * eexists _, _, _. split; [by apply wt_observe|done].
      * eexists _, _, _. split; [by apply wt_continue|done].
  - eexists _, _, _. split; [constructor|done].
  - destruct (unit_of_work w c start idx row) as [msg|[c' kv]] eqn:E.
    + eexists _, _, _. split; [by eapply wt_unit_raise|done].
    + apply unit_of_work_inr in E as (eta & pct & ? & ? & ? & -> & ->).
      eexists _, _, _. split; [by apply wt_unit|done].
  - eexists _, _, _. split; [constructor|done].
  - eexists _, _, _. split; [constructor|done].
  - eexists _, _, _. split; [constructor|done].
Qed.

Lemma worker_event s :
  ∃ pc' upd effs,
    wtrans w tk (tasks s) (worker s) pc' upd effs ∧
    sys_step w tk EvWorker s =
      Sys (apply_update (task_id tk) upd (tasks s)) pc' (pending_cancels s)
          (sweepers s + count_schedules effs) (effects s ++ effs).
Proof.
  destruct (worker_step_wtrans (worker s) (tasks s))
    as (pc' & upd & effs & Htr & Hstep).
  exists pc', upd, effs. split; [done|].
  unfold sys_step. by rewrite Hstep.
Qed.

(** An exception of the [try] body is handled by the [except] clause. *)
Lemma worker_step_raise pc T msg :
  try_step w tk pc T = Some (inl msg) →
  worker_step w tk pc T =
    (WFinally, _safe_update (task_id tk) (error_fields w msg) T, []).
Proof. unfold worker_step. by intros ->. Qed.

Lemma snapshot_apply_update upd T :
  _get_state (task_id tk) (apply_update (task_id tk) upd T) =
    match upd with
    | Some kv =>
        if decide (_get_state (task_id tk) T = ∅) then ∅
        else kv ∪ _get_state (task_id tk) T
    | None => _get_state (task_id tk) T
    end.
Proof. destruct upd; simpl; [apply snapshot_update|done]. Qed.

Lemma exec_app evs evs' s :
  exec w tk (evs ++ evs') s = exec w tk evs' (exec w tk evs s).
Proof. unfold exec. apply foldl_app. Qed.

Lemma exec_cons ev evs s :
  exec w tk (ev :: evs) s = exec w tk evs (sys_step w tk ev s).
Proof. done. Qed.

Lemma reachable_exec evs s : reachable w tk s → reachable w tk (exec w tk evs s).
Proof.
  revert s. induction evs as [|ev evs IH]; intros s Hs; [done|].
  rewrite exec_cons. apply IH. by constructor.
Qed.

(** *** Events that are not the worker's *)

Lemma other_event_worker ev s :
  ev ≠ EvWorker → worker (sys_step w tk ev s) = worker s.
Proof.
  intros Hev. destruct ev; [done| | |]; simpl.
  - by destruct (cancel_check _ _).
  - by destruct (pending_cancels s).
  - by destruct (sweepers s).
Qed.

Lemma other_event_effects ev s :
  ev ≠ EvWorker → effects (sys_step w tk ev s) = effects s.
Proof.
  intros Hev. destruct ev; [done| | |]; simpl.
  - by destruct (cancel_check _ _).
  - by destruct (pending_cancels s).
  - by destruct (sweepers s).
Qed.

(** A cancellation event keeps the task, sets at most the flag and the
    message, and never clears the flag. *)
Lemma cancel_event_state ev s :
  ev = EvCancelCheck ∨ ev = EvCancelCommit →
  let st := _get_state (task_id tk) (tasks s) in
  let st' := _get_state (task_id tk) (tasks (sys_step w tk ev s)) in
  (st ≠ ∅ → st' ≠ ∅) ∧
  (∀ k, k ≠ "cancel_requested" → k ≠ "message" → st' !! k = st !! k) ∧
  (truthy (st !! "cancel_requested") = true →
   truthy (st' !! "cancel_requested") = true) ∧
  sweepers (sys_step w tk ev s) = sweepers s ∧
  (st = ∅ → st' = ∅).
Proof.
  intros [-> | ->]; simpl.
  - by destruct (cancel_check _ _).
  - destruct (pending_cancels s); [done|]. simpl.
    unfold cancel_commit. rewrite snapshot_update.
    destruct (decide (_get_state (task_id tk) (tasks s) = ∅)) as [E|Hne].
    + rewrite E. done.
    + split; [intros _; by apply union_nonempty|].
      split; [|split; [|done]].
      * intros k Hk1 Hk2. apply update_fields_other.
        unfold cancel_fields.
        rewrite lookup_insert_ne by done. by rewrite lookup_singleton_ne.
      * intros _. by erewrite update_fields_set by apply cancel_fields_flag.
Qed.

(** *** Finalization bookkeeping *)

Lemma initial_state_nonempty : initial_state tk ≠ ∅.
Proof.
  intros H. apply (f_equal (.!! "status")) in H. discriminate H.
Qed.

Lemma snapshot_start T0 :
  _get_state (task_id tk) (tasks (start_background_task tk T0)) =
    initial_state tk.
Proof.
  unfold _get_state. simpl. rewrite lookup_insert_eq.
  by rewrite decide_False by apply initial_state_nonempty.
Qed.

Lemma apply_update_present upd T :
  _get_state (task_id tk) T ≠ ∅ →
  _get_state (task_id tk) (apply_update (task_id tk) upd T) ≠ ∅.
Proof.
  intros Hne. rewrite snapshot_apply_update. destruct upd as [kv|]; [|done].
  rewrite decide_False by done. by apply union_nonempty.
Qed.

Lemma finalization_invariant s :
  reachable w tk s →
  count_releases (effects s) = releases_at (worker s) ∧
  count_schedules (effects s) = schedules_at (worker s) ∧
  (sweepers s ≤ schedules_at (worker s))%nat ∧
  (worker s ≠ WExit → _get_state (task_id tk) (tasks s) ≠ ∅).
Proof.
  induction 1 as [T0|s ev Hs (Hrel & Hsch & Hsw & Hpres)].
  - repeat split; try done. intros _. rewrite snapshot_start.
    apply initial_state_nonempty.
  - destruct (decide (ev = EvWorker)) as [->|Hev].
    + destruct (worker_event s) as (pc' & upd & effs & Htr & ->). simpl.
      assert (worker s = WExit → pc' = WExit) as Hexit.
      { intros E. rewrite E in Htr. by inversion Htr. }
      rewrite count_releases_app, count_schedules_app, Hrel, Hsch.
      split; [|split; [|split]].
      4: { intros Hpc'. apply apply_update_present, Hpres. naive_solver. }
      all: clear Hexit Hpres; remember (worker s) as pc eqn:Hpc;
        destruct Htr; unfold count_releases, count_schedules;
        simpl in *; lia.
    + rewrite other_event_worker, other_event_effects by done.
      repeat split; try done.
      * destruct ev; [done| | |]; simpl.
        -- by destruct (cancel_check _ _).
        -- by destruct (pending_cancels s).
        -- destruct (sweepers s) eqn:E; simpl; lia.
      * intros Hw. specialize (Hpres Hw).
        destruct ev; [done| | |].
        -- by apply cancel_event_state; [left|].
        -- by apply cancel_event_state; [right|].
        -- simpl. destruct (sweepers s) eqn:E; [done|].
           destruct (worker s); simpl in *; try lia. done.
Qed.

(** *** The record along the worker's run *)

Ltac fields :=
  repeat first
    [ rewrite update_fields_other by reflexivity
    | erewrite update_fields_set by reflexivity ].

Lemma worker_invariant_holds s : reachable w tk s → worker_invariant tk s.
Proof.
  induction 1 as [T0|s ev Hs IH].
  - unfold worker_invariant. rewrite snapshot_start. done.
  - pose proof (finalization_invariant s Hs) as (_ & _ & Hsw & Hpres).
    destruct (decide (ev = EvWorker)) as [->|Hev].
    + destruct (worker_event s) as (pc' & upd & effs & Htr & ->).
      unfold worker_invariant in *. cbn [worker tasks].
      rewrite snapshot_apply_update.
      remember (worker s) as pc eqn:Hpc.
      remember (_get_state (task_id tk) (tasks s)) as st eqn:Hst.
      destruct Htr;
        try (rewrite decide_False by (by apply Hpres));
        try (right; fields; done);
        try done.
      * destruct IH as (? & ? & ?). fields. repeat split; done.
      * destruct IH as (? & ? & ?). fields. repeat split; try done.
        unfold prepare in *. repeat case_match; simplify_eq. done.
      * destruct IH as (? & ? & ? & ? & ? & ?). repeat split; try done; lia.
      * destruct IH as (? & ? & ? & ? & ? & ?). repeat split; done.
      * destruct IH as (? & ? & ? & ? & ? & ?). simpl in *.
        repeat split; try done; lia.
      * destruct IH as (? & ? & ? & ? & ? & ?). fields. cbn [c_total].
        repeat split; try done; try lia. do 2 f_equal. lia.
    + unfold worker_invariant in *.
      rewrite other_event_worker by done.
      destruct ev; [done| | |].
      * pose proof (cancel_event_state EvCancelCheck s (or_introl eq_refl))
          as (_ & Hk & _ & _). cbn zeta in Hk.
        simpl in *. by destruct (cancel_check _ _).
      * pose proof (cancel_event_state EvCancelCommit s (or_intror eq_refl))
          as (Hne & Hk & _ & _). cbn zeta in Hk, Hne.
        rewrite !Hk by done.
        destruct (worker s); try done.
        all: destruct IH as [E|IH]; [|by right].
        all: left; simpl; destruct (pending_cancels s); [done|]; simpl.
        all: unfold cancel_commit; rewrite snapshot_update, E.
        all: by rewrite decide_True.
      * simpl. destruct (sweepers s) eqn:E; [done|]. cbn [worker tasks].
        rewrite snapshot_cleanup.
        destruct (worker s); simpl in Hsw; try lia. by left.
Qed.

(** *** The estimate of the remaining time *)

(** In the loop a unit of work raises only what openpyxl raises: its
    two divisions are defined. *)
Lemma unit_of_work_arith c start idx row msg :
  1 ≤ idx → idx ≤ c_total c →
  unit_of_work w c start idx row = inl msg →
  w_fault w (SiteUnit row) = Some msg.
Proof.
  intros Hidx Htot. unfold unit_of_work.
  destruct (w_fault w (SiteUnit row)); [by intros [= ->]|].
  destruct (eta_of_nonneg (c_total c) idx
              (elapsed_of (w_time w (TUnit idx)) start))
    as (eta & -> & _); [done..|apply elapsed_positive|].
  destruct (percent_of_defined (c_total c) idx) as (pct & ->); [lia|].
  done.
Qed.

Lemma eta_field_invariant s :
  reachable w tk s →
  field tk "eta_seconds" s = None ∨
  ∃ z, field tk "eta_seconds" s = Some (VInt z) ∧ 0 ≤ z.
Proof.
  unfold field. induction 1 as [T0|s ev Hs IH].
  - left. by rewrite snapshot_start.
  - pose proof (worker_invariant_holds s Hs) as Hinv.
    destruct (decide (ev = EvWorker)) as [->|Hev].
    + destruct (worker_event s) as (pc' & upd & effs & Htr & ->).
      cbn [tasks]. rewrite snapshot_apply_update.
      unfold worker_invariant in Hinv.
      remember (worker s) as pc eqn:Hpc.
      remember (_get_state (task_id tk) (tasks s)) as st eqn:Hst.
      destruct Htr; try done;
        (destruct (decide (st = ∅)); [by left|]);
        try (by fields).
      * right. exists 0. by fields.
      * right. exists eta. fields. split; [done|].
        destruct Hinv as (_ & _ & ? & ? & _).
        destruct (eta_of_nonneg (c_total c) idx
                    (elapsed_of (w_time w (TUnit idx)) start))
          as (eta' & Heta & ?); [lia..|apply elapsed_positive|].
        congruence.
    + destruct ev; [done| | |].
      * pose proof (cancel_event_state EvCancelCheck s (or_introl eq_refl))
          as (_ & Hk & _). cbn zeta in Hk. by rewrite Hk.
      * pose proof (cancel_event_state EvCancelCommit s (or_intror eq_refl))
          as (_ & Hk & _). cbn zeta in Hk. by rewrite Hk.
      * simpl. destruct (sweepers s); [done|]. cbn [tasks].
        rewrite snapshot_cleanup. by left.
Qed.

(** C10.  In every iteration of the translation loop the index is at
    least 1 and the elapsed time at least 1e-6, both divisions of the
    estimate are defined and the estimate is a non-negative integer, so
    the iteration raises nothing but what the cell write raises; the
    [eta_seconds] entry of the task's record is at all times missing or
    a non-negative integer. *)
Theorem eta_seconds_defined_nonnegative s :
  reachable w tk s →
  (∀ c start idx row rest,
     worker s = WUnit c start idx row rest →
     1 ≤ idx ∧
     (1 # 1000000 <= elapsed_of (w_time w (TUnit idx)) start)%Q ∧
     (∃ eta, eta_of (c_total c) idx
               (elapsed_of (w_time w (TUnit idx)) start) = Some eta ∧
             0 ≤ eta) ∧
     (∀ msg, unit_of_work w c start idx row = inl msg →
             w_fault w (SiteUnit row) = Some msg)) ∧
  (field tk "eta_seconds" s = None ∨
   ∃ z, field tk "eta_seconds" s = Some (VInt z) ∧ 0 ≤ z).
Proof.
  intros Hs. split; [|by apply eta_field_invariant].
  intros c start idx row rest Hpc.
  pose proof (worker_invariant_holds s Hs) as Hinv.
  unfold worker_invariant in Hinv. rewrite Hpc in Hinv.
  destruct Hinv as (_ & _ & ? & ? & _).
  split; [done|]. split; [apply elapsed_floor|]. split.
  - apply eta_of_nonneg; [lia..|apply elapsed_positive].
  - intros msg. apply unit_of_work_arith; lia.
Qed.

(** *** The worker ends *)

Lemma steps_left_zero pc : steps_left w pc = 0%nat → pc = WExit.
Proof.
  destruct pc; simpl; try lia; try done.
  repeat case_match; lia.
Qed.

Lemma worker_step_decreases s :
  (steps_left w (worker (sys_step w tk EvWorker s)) ≤
     steps_left w (worker s) - 1)%nat.
Proof.
  destruct (worker_event s) as (pc' & upd & effs & Htr & ->).
  cbn [worker]. remember (worker s) as pc eqn:Hpc.
  destruct Htr; simpl;
    try match goal with H : prepare w = _ |- _ => rewrite H end;
    simpl; repeat case_match; lia.
Qed.

Lemma exec_steps_left evs s :
  (steps_left w (worker (exec w tk evs s)) ≤
     steps_left w (worker s) - count_worker evs)%nat.
Proof.
  revert s. induction evs as [|ev evs IH]; intros s.
  - change (exec w tk [] s) with s.
    change (count_worker []) with 0%nat. lia.
  - rewrite exec_cons. etrans; [apply IH|].
    destruct (decide (ev = EvWorker)) as [->|Hev].
    + pose proof (worker_step_decreases s).
      change (count_worker (EvWorker :: evs)) with (S (count_worker evs)).
      lia.
    + rewrite other_event_worker by done.
      replace (count_worker (ev :: evs)) with (count_worker evs)
        by by destruct ev.
      lia.
Qed.

(** The worker thread ends after at most [steps_left w WStart] of its
    own steps, whatever the other threads do. *)
Lemma worker_ends evs s :
  (steps_left w (worker s) ≤ count_worker evs)%nat →
  worker (exec w tk evs s) = WExit.
Proof.
  intros Hn. apply steps_left_zero.
  pose proof (exec_steps_left evs s). lia.
Qed.

(** The effects of the worker are writes of output files followed by
    the effects of its [finally] clause. *)
Lemma finalization_effects_invariant s :
  reachable w tk s →
  ∃ saved,
    effects s = (saved ++ finalization_effects w tk (worker s))%list ∧
    Forall (λ e, is_save e = true) saved.
Proof.
  induction 1 as [T0|s ev Hs (saved & Heffs & Hsaved)].
  - by exists [].
  - destruct (decide (ev = EvWorker)) as [->|Hev].
    2: { rewrite other_event_worker, other_event_effects by done.
         by exists saved. }
    destruct (worker_event s) as (pc' & upd & effs & Htr & ->).
    cbn [effects worker]. rewrite Heffs.
    remember (worker s) as pc eqn:Hpc.
    destruct Htr; simpl; rewrite ?app_nil_r;
      try (by exists saved; rewrite ?app_nil_r, <- ?(assoc_L (++))).
    eexists. split; [by rewrite app_nil_r|].
    apply Forall_app. split; [done|]. by repeat constructor.
Qed.

(** C4.  On every run of the worker, under every schedule of the other
    threads and whatever the release of the scratch directory does
    (removal, silent failure, or an exception, which is swallowed): the
    run ends; when it has ended the task's status is terminal (or the
    task is already evicted), the release has been attempted exactly
    once and the sweeper has been scheduled exactly once; the release is
    of the task's own scratch directory, the directory of the uploaded
    file, the sweeper is scheduled for the task's identifier, after the
    release, and these are the last effects of the worker, which before
    them has only written output; neither happens before the status is
    terminal. *)
Theorem finalization_exactly_once (T0 : registry) (evs : list event) :
  let s := exec w tk evs (start_background_task tk T0) in
  ((steps_left w WStart ≤ count_worker evs)%nat → worker s = WExit) ∧
  (worker s = WExit →
   count_releases (effects s) = 1%nat ∧
   count_schedules (effects s) = 1%nat ∧
   (_get_state (task_id tk) (tasks s) = ∅ ∨
    is_terminal (field tk "status" s) = true) ∧
   ∃ saved,
     effects s =
       (saved ++ [EffRelease (dirname (file_path tk)) (w_release w);
                  EffSchedule (task_id tk)])%list ∧
     Forall (λ e, is_save e = true) saved) ∧
  (finished (worker s) = false →
   count_releases (effects s) = 0%nat ∧
   count_schedules (effects s) = 0%nat ∧
   is_terminal (field tk "status" s) = false).
Proof.
  intros s.
  assert (reachable w tk s) as Hs by apply reachable_exec, reach_start.
  pose proof (finalization_invariant s Hs) as (Hrel & Hsch & _ & _).
  pose proof (worker_invariant_holds s Hs) as Hinv.
  pose proof (finalization_effects_invariant s Hs) as Heffs.
  unfold worker_invariant, field in *.
  split; [|split].
  - intros Hn. by apply worker_ends.
  - intros Hex. rewrite Hex in *. done.
  - intros Hact. rewrite Hrel, Hsch.
    destruct (worker s); try done; simpl;
      destruct Hinv as (-> & _); done.
Qed.

(** *** After the terminal update *)

Lemma finished_worker_step s :
  finished (worker s) = true →
  tasks (sys_step w tk EvWorker s) = tasks s ∧
  finished (worker (sys_step w tk EvWorker s)) = true.
Proof. by destruct s as [T [] n m effs]. Qed.

Lemma active_not_terminal s :
  reachable w tk s →
  is_terminal (field tk "status" s) = true →
  finished (worker s) = true.
Proof.
  intros Hs Ht. pose proof (worker_invariant_holds s Hs) as Hinv.
  unfold worker_invariant, field in *.
  destruct (worker s); try done;
    destruct Hinv as (E & _); rewrite E in Ht; done.
Qed.

(** Without a sweep the task stays in the registry. *)
Lemma present_without_sweep evs s :
  EvSweep ∉ evs →
  _get_state (task_id tk) (tasks s) ≠ ∅ →
  _get_state (task_id tk) (tasks (exec w tk evs s)) ≠ ∅.
Proof.
  revert s. induction evs as [|ev evs IH]; intros s Hsw Hne; [done|].
  rewrite exec_cons. apply not_elem_of_cons in Hsw as [Hev Hsw].
  apply IH; [done|]. destruct ev; [| | |done].
  - destruct (worker_event s) as (pc' & upd & effs & _ & ->).
    by apply apply_update_present.
  - by apply cancel_event_state; [left|].
  - by apply cancel_event_state; [right|].
Qed.

(** Once the worker is past its terminal update, every field other than
    the cancellation flag and the message keeps its value until a
    sweep. *)
Lemma finished_stable evs s k :
  finished (worker s) = true →
  EvSweep ∉ evs →
  k ≠ "cancel_requested" → k ≠ "message" →
  field tk k (exec w tk evs s) = field tk k s ∧
  finished (worker (exec w tk evs s)) = true.
Proof.
  intros Hfin Hsw Hk1 Hk2. revert s Hfin Hsw.
  induction evs as [|ev evs IH]; intros s Hfin Hsw; [done|].
  rewrite exec_cons. apply not_elem_of_cons in Hsw as [Hev Hsw].
  assert (field tk k (sys_step w tk ev s) = field tk k s ∧
          finished (worker (sys_step w tk ev s)) = true) as [E Hfin'].
  { unfold field. destruct ev; [| | |done].
    - destruct (finished_worker_step s Hfin) as [-> ?]. done.
    - rewrite other_event_worker by done. split; [|done].
      by apply cancel_event_state; [left|..].
    - rewrite other_event_worker by done. split; [|done].
      by apply cancel_event_state; [right|..]. }
  rewrite <- E. by apply IH.
Qed.

(** C1 (amended).  Once the status of the task is terminal, the worker
    is past its last update, and a schedule made of worker steps and of
    cancellation requests that take their snapshot from then on leaves
    the whole registry as it is; such a request is answered 200 as
    already finished. *)
Theorem terminal_final_for_worker_and_new_requests (s : sys) (evs : list event) :
  reachable w tk s →
  is_terminal (field tk "status" s) = true →
  Forall (λ ev, ev = EvWorker ∨ ev = EvCancelCheck) evs →
  finished (worker s) = true ∧
  tasks (exec w tk evs s) = tasks s ∧
  pending_cancels (exec w tk evs s) = pending_cancels s ∧
  task_cancel (task_id tk) (tasks s) = (tasks s, already_finished).
Proof.
  intros Hs Ht Hevs.
  pose proof (active_not_terminal s Hs Ht) as Hfin.
  split; [done|]. split; [|split].
  3: { unfold task_cancel. by rewrite cancel_check_terminal. }
  all: revert s Hs Ht Hfin;
    induction Hevs as [|ev evs [-> | ->] _ IH]; intros s Hs Ht Hfin;
    [done| |].
  - rewrite exec_cons.
    destruct (finished_worker_step s Hfin) as [HT Hfin'].
    rewrite <- HT. apply IH; [by constructor| |done].
    unfold field. by rewrite HT.
  - rewrite exec_cons.
    assert (sys_step w tk EvCancelCheck s = s) as ->; [|by apply IH].
    simpl. by rewrite cancel_check_terminal.
  - rewrite exec_cons.
    destruct (finished_worker_step s Hfin) as [HT Hfin'].
    rewrite IH; [by destruct s as [T [] n m effs]|by constructor| |done].
    unfold field. by rewrite HT.
  - rewrite exec_cons.
    assert (sys_step w tk EvCancelCheck s = s) as ->; [|by apply IH].
    simpl. by rewrite cancel_check_terminal.
Qed.

(** C5.  When the body of the worker's [try] raises an exception, the
    worker's step handles it: the thread goes on to its [finally]
    clause, the status becomes [error], the message is the text of the
    exception and [finished_at] is set; from then on, until a sweep, the
    task answers status queries with status [error], and the thread ends
    normally after two more steps. *)
Theorem worker_failure_contained (s : sys) (msg : string) :
  reachable w tk s →
  try_step w tk (worker s) (tasks s) = Some (inl msg) →
  let s1 := sys_step w tk EvWorker s in
  worker s1 = WFinally ∧
  field tk "status" s1 = Some (VStr "error") ∧
  field tk "message" s1 = Some (VStr msg) ∧
  field tk "finished_at" s1 = Some (VFloat (w_time w TFinished)) ∧
  ∀ evs, EvSweep ∉ evs →
    let s2 := exec w tk evs s1 in
    field tk "status" s2 = Some (VStr "error") ∧
    task_status (task_id tk) (tasks s2) ≠ not_found ∧
    finished (worker s2) = true ∧
    ((2 ≤ count_worker evs)%nat → worker s2 = WExit).
Proof.
  intros Hs Hraise s1.
  assert (_get_state (task_id tk) (tasks s) ≠ ∅) as Hne.
  { apply finalization_invariant; [done|]. intros E. by rewrite E in Hraise. }
  assert (s1 = Sys (_safe_update (task_id tk) (error_fields w msg) (tasks s))
                   WFinally (pending_cancels s) (sweepers s) (effects s))
    as Hs1.
  { unfold s1, sys_step. rewrite (worker_step_raise _ _ _ Hraise).
    simpl. by rewrite Nat.add_0_r, app_nil_r. }
  assert (_get_state (task_id tk) (tasks s1) =
            error_fields w msg ∪ _get_state (task_id tk) (tasks s)) as Hst1.
  { rewrite Hs1. cbn [tasks]. rewrite snapshot_update.
    by rewrite decide_False. }
  assert (field tk "status" s1 = Some (VStr "error")) as Hstatus.
  { unfold field. rewrite Hst1. by fields. }
  split; [by rewrite Hs1|]. split; [done|].
  split; [unfold field; rewrite Hst1; by fields|].
  split; [unfold field; rewrite Hst1; by fields|].
  intros evs Hsw s2. unfold s2. clear s2.
  destruct (finished_stable evs s1 "status") as [E Hfin];
    [by rewrite Hs1|done..|].
  split; [by rewrite E|]. split; [|split; [done|]].
  - unfold task_status. rewrite decide_False; [done|].
    apply present_without_sweep; [done|].
    rewrite Hst1. by apply union_nonempty.
  - intros Hn. apply worker_ends. by rewrite Hs1.
Qed.

(** *** Cancellation *)

Lemma canceling_step n cur s ev :
  reachable w tk s →
  canceling w tk n cur s →
  ev ≠ EvSweep →
  canceling w tk (if decide (ev = EvWorker) then pred n else n) cur
            (sys_step w tk ev s).
Proof.
  intros Hs (Hne & Hflag & Hdl & cur' & Hcur & Hle & Hn) Hev.
  destruct (decide (ev = EvWorker)) as [->|Hev'].
  - pose proof (worker_invariant_holds s Hs) as Hinv.
    destruct (worker_event s) as (pc' & upd & effs & Htr & ->).
    unfold canceling, worker_invariant in *. cbn [tasks worker].
    rewrite snapshot_apply_update.
    destruct n as [|[|[|[|n]]]]; [| | | |done]; cbn [pred].
    + destruct Hn as [Hfin Hst].
      destruct (worker s); try done; inversion Htr; subst;
        (split; [done|]); (split; [done|]); (split; [done|]);
        exists cur'; repeat split; done || lia.
    + rewrite Hn in Htr. inversion Htr; subst.
      rewrite decide_False by done. fields.
      split; [by apply union_nonempty|]. split; [done|]. split; [done|].
      exists cur'. done.
    + destruct Hn as (c & start & idx & row & rest & Hpc).
      rewrite Hpc in Htr. inversion Htr; subst; [|congruence].
      split; [done|]. split; [done|]. split; [done|]. exists cur'. done.
    + destruct Hn as (-> & Hpend & Hnc).
      destruct (worker s) as [| |c rows| | |c start idx row rest| | |] eqn:Hpc;
        try done; [|by destruct (Hnc c start idx rows)|].
      * destruct rows as [|r rows]; [done|]. simpl in Hpend.
        inversion Htr; subst; [by destruct (c_total c)|].
        split; [done|]. split; [done|]. split; [done|].
        exists cur. split; [done|]. split; [lia|]. by eexists _, _, _, _, _.
      * destruct rest as [|r rest]; [done|]. simpl in Hpend.
        destruct Hinv as (_ & _ & _ & _ & _ & Hidx).
        inversion Htr as [| | | | | | | | | |? ? ? ? ? ? Hraise| | | |]; subst.
        { by rewrite Hraise in Hpend. }
        rewrite decide_False by done. fields.
        split; [by apply union_nonempty|]. split; [done|]. split; [done|].
        exists idx. split; [done|].
        rewrite Hcur in Hidx. injection Hidx as ->.
        split; [lia|]. by eexists _, _, _, _, _.
  - assert (ev = EvCancelCheck ∨ ev = EvCancelCommit) as Hc
      by (destruct ev; auto; done).
    pose proof (cancel_event_state ev s Hc) as (Hne' & Hk & Hflag' & _).
    cbn zeta in *. unfold canceling.
    rewrite other_event_worker by done.
    rewrite (Hk "download_filename"), (Hk "current"), ?(Hk "status") by done.
    split; [by apply Hne'|]. split; [by apply Hflag'|]. split; [done|].
    exists cur'. done.
Qed.

Lemma canceling_exec evs n cur s :
  reachable w tk s →
  canceling w tk n cur s →
  EvSweep ∉ evs →
  canceling w tk (n - count_worker evs) cur (exec w tk evs s).
Proof.
  revert n s. induction evs as [|ev evs IH]; intros n s Hs Hc Hsw.
  - change (count_worker []) with 0%nat. by rewrite Nat.sub_0_r.
  - apply not_elem_of_cons in Hsw as [Hev Hsw]. rewrite exec_cons.
    pose proof (canceling_step n cur s ev Hs Hc (not_eq_sym Hev)) as Hc'.
    destruct (decide (ev = EvWorker)) as [->|Hev'].
    + change (count_worker (EvWorker :: evs)) with (S (count_worker evs)).
      replace (n - S (count_worker evs))%nat
        with (pred n - count_worker evs)%nat by lia.
      apply IH; [by constructor|done..].
    + replace (count_worker (ev :: evs)) with (count_worker evs)
        by by destruct ev.
      apply IH; [by constructor|done..].
Qed.

(** C3 (amended).  When the cancellation flag is set while units remain
    to be started after the unit in flight (and that unit does not
    raise), the worker starts no further unit: after three of its steps,
    under every schedule of the other requests and before any sweep,
    the status is [canceled], [current] has grown by at most one since
    the flag was seen set, and no download reference is set. *)
Theorem cancellation_observed_at_next_checkpoint (s : sys) (evs : list event) :
  reachable w tk s →
  units_pending w (worker s) = true →
  truthy (field tk "cancel_requested" s) = true →
  EvSweep ∉ evs →
  (3 ≤ count_worker evs)%nat →
  let s' := exec w tk evs s in
  finished (worker s') = true ∧
  field tk "status" s' = Some (VStr "canceled") ∧
  field tk "download_filename" s' = None ∧
  ∃ cur cur',
    field tk "current" s = Some (VInt cur) ∧
    field tk "current" s' = Some (VInt cur') ∧
    cur ≤ cur' ≤ cur + 1.
Proof.
  intros Hs Hpend Hflag Hsw Hn s'. unfold s', field in *. clear s'.
  pose proof (worker_invariant_holds s Hs) as Hinv.
  assert (_get_state (task_id tk) (tasks s) ≠ ∅) as Hne.
  { apply finalization_invariant; [done|]. intros E. by rewrite E in Hpend. }
  assert (∃ n cur,
            (n ≤ 3)%nat ∧ canceling w tk n cur s ∧
            _get_state (task_id tk) (tasks s) !! "current" = Some (VInt cur))
    as (n & cur & Hn3 & Hc & Hcur).
  { unfold worker_invariant, canceling in *.
    destruct (worker s) as [| |c rows|c start idx rows| |c start idx row rest| | |]
      eqn:Hpc; try done.
    - destruct Hinv as (_ & ? & _ & _ & _ & ?).
      exists 3%nat, 0. split; [lia|]. split; [|done].
      repeat split; try done. exists 0. repeat split; try done; lia.
    - destruct Hinv as (_ & ? & _ & _ & _ & ?). destruct rows; [done|].
      exists 2%nat, (idx - 1). split; [lia|]. split; [|done].
      repeat split; try done. exists (idx - 1).
      repeat split; try done; try lia. by eexists _, _, _, _, _.
    - destruct Hinv as (_ & ? & _ & _ & _ & ?).
      exists 3%nat, (idx - 1). split; [lia|]. split; [|done].
      repeat split; try done. exists (idx - 1). repeat split; try done; lia. }
  pose proof (canceling_exec evs n cur s Hs Hc Hsw) as Hend.
  replace (n - count_worker evs)%nat with 0%nat in Hend by lia.
  destruct Hend as (_ & _ & Hdl & cur' & Hcur' & Hle & Hfin & Hst).
  repeat split; try done. by exists cur, cur'.
Qed.

(** *** A sheet without rows to translate *)

Lemma zero_work_invariant c s :
  prepare w = inr (c, []) →
  reachable w tk s →
  let st := _get_state (task_id tk) (tasks s) in
  match worker s with
  | WStart | WPrepare => True
  | WDispatch _ rows => rows = []
  | WFinally | WSchedule | WExit =>
      st = ∅ ∨
      (st !! "status" = Some (VStr "done") ∧
       st !! "total" = Some (VInt 0) ∧
       st !! "percent" = Some (VInt 100))
  | _ => False
  end.
Proof.
  intros Hprep. induction 1 as [T0|s ev Hs IH]; [done|].
  pose proof (finalization_invariant s Hs) as (_ & _ & Hsw & _).
  pose proof (worker_invariant_holds s Hs) as Hinv.
  destruct (decide (ev = EvWorker)) as [->|Hev].
  - destruct (worker_event s) as (pc' & upd & effs & Htr & ->).
    cbn [worker tasks] in *. cbn zeta in *.
    rewrite snapshot_apply_update.
    unfold worker_invariant in Hinv.
    remember (worker s) as pc eqn:Hpc.
    remember (_get_state (task_id tk) (tasks s)) as st eqn:Hst.
    destruct Htr; try done; try congruence.
    + destruct Hinv as (_ & _ & _ & _ & Htot & _).
      destruct (decide (st = ∅)); [by left|]. right. fields.
      repeat split; try done. congruence.
    + destruct Hinv as (_ & _ & _ & Htot & _). subst rows. done.
  - cbn zeta in *. rewrite other_event_worker by done.
    destruct ev; [done| | |].
    + pose proof (cancel_event_state EvCancelCheck s (or_introl eq_refl))
        as (_ & Hk & _ & _ & Habs). cbn zeta in *.
      rewrite !Hk by done.
      destruct (worker s); try done;
        (destruct IH as [E|IH]; [left; by apply Habs|by right]).
    + pose proof (cancel_event_state EvCancelCommit s (or_intror eq_refl))
        as (_ & Hk & _ & _ & Habs). cbn zeta in *.
      rewrite !Hk by done.
      destruct (worker s); try done;
        (destruct IH as [E|IH]; [left; by apply Habs|by right]).
    + simpl. destruct (sweepers s) eqn:E; [done|]. cbn [worker tasks].
      rewrite snapshot_cleanup.
      destruct (worker s); simpl in Hsw; try lia. by left.
Qed.

(** C9.  For a workbook that loads, has a title column and no row to
    translate (no row below the header whose title cell is non-blank):
    the status of the task is never [error], and after three steps of the
    worker,
    under every schedule of cancellation requests and before any sweep,
    the status is [done] with [total] 0 and [percent] 100. *)
Theorem zero_rows_done (ws : worksheet) (col : Z) (T0 : registry)
    (evs : list event) :
  w_load w = inr (Some ws) →
  find_title (row_cells ws 1) 1 = Some col →
  w_fault w SiteInsert = None →
  rows_to_translate ws col = [] →
  let s := exec w tk evs (start_background_task tk T0) in
  field tk "status" s ≠ Some (VStr "error") ∧
  ((3 ≤ count_worker evs)%nat → EvSweep ∉ evs →
   field tk "status" s = Some (VStr "done") ∧
   field tk "total" s = Some (VInt 0) ∧
   field tk "percent" s = Some (VInt 100)).
Proof.
  intros Hload Htitle Hins Hrows s.
  assert (∃ c, prepare w = inr (c, [])) as [c Hprep].
  { unfold prepare. rewrite Hload, Htitle, Hins.
    rewrite rows_to_translate_prepared, Hrows; [by eexists|].
    by apply find_title_lower_bound in Htitle. }
  assert (reachable w tk s) as Hs by apply reachable_exec, reach_start.
  pose proof (zero_work_invariant c s Hprep Hs) as Hzero.
  pose proof (worker_invariant_holds s Hs) as Hinv.
  unfold worker_invariant, field in *. cbn zeta in Hzero. split.
  - destruct (worker s); try done;
      try (destruct Hinv as (-> & _); done);
      destruct Hzero as [-> | (-> & _)]; done.
  - intros Hn Hsw.
    pose proof (exec_steps_left evs (start_background_task tk T0)) as Hleft.
    fold s in Hleft. simpl in Hleft. rewrite Hprep in Hleft. simpl in Hleft.
    assert (_get_state (task_id tk) (tasks s) ≠ ∅) as Hne.
    { apply present_without_sweep; [done|]. rewrite snapshot_start.
      apply initial_state_nonempty. }
    destruct (worker s); simpl in Hleft; try lia;
      try (rewrite Hprep in Hleft; simpl in Hleft; lia);
      try done; by destruct Hzero.
Qed.

(** *** The terminal update *)

Lemma terminal_record_invariant s :
  reachable w tk s →
  let st := _get_state (task_id tk) (tasks s) in
  if finished (worker s) then terminal_record w st
  else st !! "finished_at" = None.
Proof.
  induction 1 as [T0|s ev Hs IH]; cbn zeta in *.
  - rewrite snapshot_start. reflexivity.
  - pose proof (finalization_invariant s Hs) as (_ & _ & Hsw & _).
    pose proof (worker_invariant_holds s Hs) as Hinv.
    destruct (decide (ev = EvWorker)) as [->|Hev].
    + destruct (worker_event s) as (pc' & upd & effs & Htr & ->).
      cbn [worker tasks]. rewrite snapshot_apply_update.
      unfold worker_invariant, terminal_record in *.
      remember (worker s) as pc eqn:Hpc.
      remember (_get_state (task_id tk) (tasks s)) as st eqn:Hst.
      destruct Htr; cbn [finished] in *; try done;
        (destruct (decide (st = ∅)); [try (by left); by subst st|]);
        try (by fields).
      * right. left. by fields.
      * right. right. right. left. fields.
        destruct Hinv as (_ & ? & _). done.
      * right. left. by fields.
      * right. right. left. fields. repeat split; try done. by eexists.
      * right. right. right. right. fields.
        destruct Hinv as (_ & ?). done.
      * right. left. by fields.
    + rewrite other_event_worker by done.
      destruct ev; [done| | |].
      * pose proof (cancel_event_state EvCancelCheck s (or_introl eq_refl))
          as (_ & Hk & _ & _ & Habs). cbn zeta in *.
        unfold terminal_record in *. rewrite !Hk by done.
        destruct (finished (worker s)); [|done].
        destruct IH as [E|IH]; [left; by apply Habs|by right].
      * pose proof (cancel_event_state EvCancelCommit s (or_intror eq_refl))
          as (_ & Hk & _ & _ & Habs). cbn zeta in *.
        unfold terminal_record in *. rewrite !Hk by done.
        destruct (finished (worker s)); [|done].
        destruct IH as [E|IH]; [left; by apply Habs|by right].
      * simpl. destruct (sweepers s) eqn:E; [done|]. cbn [worker tasks].
        rewrite snapshot_cleanup.
        destruct (worker s); simpl in Hsw; try lia. by left.
Qed.

Lemma active_step_target s :
  finished (worker s) = false →
  finished (worker (sys_step w tk EvWorker s)) = true →
  worker (sys_step w tk EvWorker s) = WFinally.
Proof.
  destruct (worker_event s) as (pc' & upd & effs & Htr & ->).
  cbn [worker]. by destruct Htr.
Qed.

(** The transition to [done] after the loop. *)
Lemma done_after_loop s c start idx :
  reachable w tk s →
  worker s = WCheck c start idx [] →
  w_fault w SiteSave = None →
  let s' := sys_step w tk EvWorker s in
  field tk "status" s' = Some (VStr "done") ∧
  field tk "percent" s' = Some (VInt 100) ∧
  field tk "download_filename" s' = Some (VStr (output_filename_of tk)) ∧
  field tk "finished_at" s' = Some (VFloat (w_time w TFinished)).
Proof.
  intros Hs Hpc Hsave s'.
  assert (_get_state (task_id tk) (tasks s) ≠ ∅) as Hne.
  { apply finalization_invariant; [done|]. by rewrite Hpc. }
  assert (tasks s' = _safe_update (task_id tk)
                       (done_fields w (c_total c) (output_filename_of tk))
                       (tasks s)) as HT.
  { unfold s', sys_step, worker_step, try_step, save_output.
    by rewrite Hpc, Hsave. }
  unfold field. rewrite HT, snapshot_update, decide_False by done.
  fields. done.
Qed.

(** The transition to [done] of a run without rows: the status goes from
    [running] to [done] at 100 percent, no file is written and the record
    has no download reference. *)
Lemma done_without_rows s c rows :
  reachable w tk s →
  worker s = WDispatch c rows →
  c_total c = 0 →
  let s' := sys_step w tk EvWorker s in
  field tk "status" s = Some (VStr "running") ∧
  field tk "status" s' = Some (VStr "done") ∧
  field tk "percent" s' = Some (VInt 100) ∧
  field tk "download_filename" s' = None ∧
  effects s' = effects s.
Proof.
  intros Hs Hpc Htot s'.
  assert (_get_state (task_id tk) (tasks s) ≠ ∅) as Hne.
  { apply finalization_invariant; [done|]. by rewrite Hpc. }
  pose proof (worker_invariant_holds s Hs) as Hinv.
  unfold worker_invariant in Hinv. rewrite Hpc in Hinv.
  destruct Hinv as (Hst & Hdl & _).
  assert (tasks s' = _safe_update (task_id tk) nothing_fields (tasks s) ∧
          effects s' = effects s) as [HT Heffs].
  { unfold s', sys_step, worker_step, try_step.
    rewrite Hpc, Htot. simpl. by rewrite app_nil_r. }
  unfold field. rewrite HT, snapshot_update, decide_False by done.
  fields. done.
Qed.

(** C2 (amended).  [finished_at] is missing until the worker's terminal
    update and is written by that update only, hence at most once: an
    event other than a sweep that changes it is the worker's step into its
    [finally] clause, from a record without it.  A record with status
    [error] has [finished_at]; a record with status [done] has percent 100
    and, when it has a download reference, [finished_at]; the transition
    to [done] after the loop sets percent 100, the download reference and
    [finished_at]; the transition to [done] of a run without rows sets
    percent 100, writes no file and sets no download reference. *)
Theorem finished_at_set_at_terminal_update (s : sys) :
  reachable w tk s →
  (finished (worker s) = false → field tk "finished_at" s = None) ∧
  (∀ c start idx,
     worker s = WCheck c start idx [] → w_fault w SiteSave = None →
     let s' := sys_step w tk EvWorker s in
     field tk "status" s' = Some (VStr "done") ∧
     field tk "percent" s' = Some (VInt 100) ∧
     field tk "download_filename" s' = Some (VStr (output_filename_of tk)) ∧
     field tk "finished_at" s' = Some (VFloat (w_time w TFinished))) ∧
  (field tk "status" s = Some (VStr "error") →
   field tk "finished_at" s = Some (VFloat (w_time w TFinished))) ∧
  (field tk "status" s = Some (VStr "done") →
   field tk "percent" s = Some (VInt 100) ∧
   (field tk "download_filename" s ≠ None →
    field tk "finished_at" s = Some (VFloat (w_time w TFinished)))) ∧
  (∀ ev, ev ≠ EvSweep →
         field tk "finished_at" (sys_step w tk ev s) ≠
           field tk "finished_at" s →
         ev = EvWorker ∧ field tk "finished_at" s = None ∧
         worker (sys_step w tk ev s) = WFinally ∧
         is_terminal (field tk "status" (sys_step w tk ev s)) = true) ∧
  (∀ c rows,
     worker s = WDispatch c rows → c_total c = 0 →
     let s' := sys_step w tk EvWorker s in
     field tk "status" s = Some (VStr "running") ∧
     field tk "status" s' = Some (VStr "done") ∧
     field tk "percent" s' = Some (VInt 100) ∧
     field tk "download_filename" s' = None ∧
     effects s' = effects s).
Proof.
  intros Hs.
  pose proof (terminal_record_invariant s Hs) as Hrec.
  pose proof (worker_invariant_holds s Hs) as Hinv.
  split; [|split; [by intros c start idx; apply done_after_loop|]].
  all: unfold field, worker_invariant, terminal_record in *;
    cbn zeta in Hrec.
  { intros Hact. by rewrite Hact in Hrec. }
  split; [|split; [|split]].
  4: { intros c rows Hpc Htot. exact (done_without_rows s c rows Hs Hpc Htot). }
  - intros Hst. destruct (worker s); cbn [finished] in Hrec;
      try (destruct Hinv as (E & _); congruence).
    all: destruct Hrec as [E|[(_ & ?)|[(E & _)|[(E & _)|(E & _)]]]];
      try done; try congruence; by rewrite E in Hst.
  - intros Hst. destruct (worker s); cbn [finished] in Hrec;
      try (destruct Hinv as (E & _); congruence).
    all: destruct Hrec
      as [E|[(E & _)|[(_ & ? & _ & ?)|[(_ & ? & ?)|(E & _)]]]];
      try done; try congruence; by rewrite E in Hst.
  - intros ev Hev Hchg.
    destruct ev; [| | |done].
    + destruct (finished (worker s)) eqn:Hfin.
      { destruct (finished_worker_step s Hfin) as [HT _].
        by rewrite HT in Hchg. }
      assert (reachable w tk (sys_step w tk EvWorker s)) as Hs'
        by by constructor.
      pose proof (terminal_record_invariant _ Hs') as Hrec'.
      pose proof (worker_invariant_holds _ Hs') as Hinv'.
      cbn zeta in Hrec'. unfold terminal_record, worker_invariant in *.
      destruct (finished (worker (sys_step w tk EvWorker s))) eqn:Hfin'.
      2: { by rewrite Hrec, Hrec' in Hchg. }
      pose proof (active_step_target s Hfin Hfin') as Hpc.
      split; [done|]. split; [done|]. split; [done|].
      destruct Hrec' as [E|[(E & _)|[(E & _)|[(E & _)|(E & _)]]]];
        try (by rewrite E).
      by rewrite E, Hrec in Hchg.
    + destruct Hchg.
      by apply (cancel_event_state EvCancelCheck s (or_introl eq_refl)).
    + destruct Hchg.
      by apply (cancel_event_state EvCancelCommit s (or_intror eq_refl)).
Qed.

(** *** After eviction *)

(** Once the task is gone from the registry no thread brings it back. *)
Lemma evicted_stays_evicted evs s :
  tasks s !! task_id tk = None →
  tasks (exec w tk evs s) !! task_id tk = None.
Proof.
  revert s. induction evs as [|ev evs IH]; intros s Habs; [done|].
  rewrite exec_cons. apply IH. destruct ev.
  - destruct (worker_event s) as (pc' & upd & effs & _ & ->). cbn [tasks].
    destruct upd; simpl; [by rewrite update_absent|done].
  - simpl. by destruct (cancel_check _ _).
  - simpl. destruct (pending_cancels s); [done|]. cbn [tasks].
    unfold cancel_commit. by rewrite update_absent.
  - simpl. destruct (sweepers s); [done|]. cbn [tasks].
    apply lookup_delete_eq.
Qed.
End process.

(** ** Runs on the sample workbooks *)

Lemma sample_reachable w evs :
  reachable w sample_task (exec w sample_task evs sample_start).
Proof. apply reachable_exec, reach_start. Qed.

Lemma no_sweep_worker_only n : EvSweep ∉ worker_only n.
Proof. unfold worker_only. intros [? _]%elem_of_replicate. done. Qed.

Lemma count_worker_only n : count_worker (worker_only n) = n.
Proof.
  unfold worker_only, count_worker.
  induction n as [|n IH]; [done|]. simpl. by rewrite IH.
Qed.

(** A complete run over two rows. *)
Example two_rows_run :
  let s := exec (sample_world two_row_sheet no_fault RelRemoved) sample_task
             (worker_only 10) sample_start in
  worker s = WExit ∧
  field sample_task "status" s = Some (VStr "done") ∧
  field sample_task "current" s = Some (VInt 2) ∧
  field sample_task "total" s = Some (VInt 2) ∧
  field sample_task "percent" s = Some (VInt 100) ∧
  field sample_task "download_filename" s = Some (VStr "book_中文翻译.xlsx") ∧
  field sample_task "finished_at" s = Some (VFloat 110) ∧
  effects s =
    [EffSave "/tmp/book_中文翻译.xlsx"
       [[CStr "id"; CStr "Title"; CStr "中文"];
        [CInt 1; CStr "hello"; CStr "zh:hello"];
        [CInt 2; CStr "world"; CStr "zh:world"]];
     EffRelease "/tmp/tmpk3v9" RelRemoved;
     EffSchedule "3f9a1c0b7d2e"].
Proof. vm_compute. repeat split. Qed.

(** C1, as stated, fails on the registry: [_safe_update] merges into a
    record whose status is terminal.  After the complete run over two rows
    a progress update still overwrites [percent] and [current]. *)
Lemma update_overwrites_terminal_record :
  let s := exec (sample_world two_row_sheet no_fault RelRemoved) sample_task
             (worker_only 10) sample_start in
  let T' := _safe_update (task_id sample_task) (progress_fields 2 1 1 50)
              (tasks s) in
  is_terminal (field sample_task "status" s) = true ∧
  field sample_task "percent" s = Some (VInt 100) ∧
  field sample_task "current" s = Some (VInt 2) ∧
  _get_state (task_id sample_task) T' !! "percent" = Some (VInt 50) ∧
  _get_state (task_id sample_task) T' !! "current" = Some (VInt 1).
Proof. vm_compute. repeat split. Qed.

(** A request that took its snapshot before the worker's last update and
    makes its own update after it: the record of the finished task gets
    the message and the flag of the request. *)
Example request_straddling_completion :
  let s := exec (sample_world one_row_sheet no_fault RelRemoved) sample_task
             (worker_only 5 ++ [EvCancelCheck] ++ worker_only 1) sample_start in
  let s' := sys_step (sample_world one_row_sheet no_fault RelRemoved)
              sample_task EvCancelCommit s in
  field sample_task "status" s = Some (VStr "done") ∧
  field sample_task "cancel_requested" s = Some (VBool false) ∧
  field sample_task "status" s' = Some (VStr "done") ∧
  field sample_task "cancel_requested" s' = Some (VBool true) ∧
  field sample_task "message" s' = Some (VStr "取消中...").
Proof. vm_compute. repeat split. Qed.

Lemma terminal_final_for_worker_and_new_requests_witness :
  let w := sample_world two_row_sheet no_fault RelRemoved in
  let s := exec w sample_task (worker_only 8) sample_start in
  tasks (exec w sample_task [EvWorker; EvCancelCheck; EvWorker; EvCancelCheck] s)
    = tasks s.
Proof.
  intros w s.
  apply (terminal_final_for_worker_and_new_requests w sample_task s).
  - apply sample_reachable.
  - vm_compute. reflexivity.
  - repeat first [apply List.Forall_nil | apply List.Forall_cons; [auto|]].
Defined.

(** C2, as stated, fails on a sheet with the header only: the step of
    the worker that takes the status from [running] to [done] sets 100
    percent, writes no file, and sets no download reference. *)
Lemma done_without_rows_sets_no_download_reference :
  let w := sample_world header_only_sheet no_fault RelRemoved in
  let s := exec w sample_task (worker_only 2) sample_start in
  let s' := sys_step w sample_task EvWorker s in
  field sample_task "status" s = Some (VStr "running") ∧
  field sample_task "status" s' = Some (VStr "done") ∧
  field sample_task "percent" s' = Some (VInt 100) ∧
  field sample_task "download_filename" s' = None ∧
  effects s' = [].
Proof. vm_compute. repeat split. Qed.

(** The transitions to [canceled] and to [done] without rows do not set
    [finished_at], which the transitions to [error] and to [done] after
    the loop do set.  A run over two rows canceled during the first row
    ends [canceled], a run over a sheet with the header only ends [done],
    and in both records [finished_at] is missing. *)
Lemma finished_at_missing_after_cancel_and_empty_run :
  let s := exec (sample_world two_row_sheet no_fault RelRemoved) sample_task
             (worker_only 4 ++ cancel_request ++ worker_only 5) sample_start in
  let s0 := exec (sample_world header_only_sheet no_fault RelRemoved)
              sample_task (worker_only 5) sample_start in
  (worker s = WExit ∧
   field sample_task "status" s = Some (VStr "canceled") ∧
   field sample_task "finished_at" s = None) ∧
  (worker s0 = WExit ∧
   field sample_task "status" s0 = Some (VStr "done") ∧
   field sample_task "finished_at" s0 = None ∧
   field sample_task "download_filename" s0 = None).
Proof. vm_compute. repeat split. Qed.

(** C3, as stated, fails: a request made while the last row is in flight
    (status [running], [current] 0 below [total] 1) sets the flag, but no
    checkpoint follows; the task ends [done] with a download reference. *)
Lemma cancellation_during_last_unit_completes :
  let w := sample_world one_row_sheet no_fault RelRemoved in
  let s := exec w sample_task (worker_only 4) sample_start in
  let s1 := exec w sample_task cancel_request s in
  let s2 := exec w sample_task (worker_only 4) s1 in
  (field sample_task "status" s = Some (VStr "running") ∧
   field sample_task "current" s = Some (VInt 0) ∧
   field sample_task "total" s = Some (VInt 1) ∧
   field sample_task "cancel_requested" s = Some (VBool false)) ∧
  (field sample_task "status" s1 = Some (VStr "running") ∧
   field sample_task "cancel_requested" s1 = Some (VBool true)) ∧
  (worker s2 = WExit ∧
   field sample_task "status" s2 = Some (VStr "done") ∧
   field sample_task "cancel_requested" s2 = Some (VBool true) ∧
   field sample_task "download_filename" s2 = Some (VStr "book_中文翻译.xlsx")).
Proof. vm_compute. repeat split. Qed.

Lemma cancellation_observed_at_next_checkpoint_witness :
  let w := sample_world two_row_sheet no_fault RelRemoved in
  let s := exec w sample_task (worker_only 4 ++ cancel_request) sample_start in
  field sample_task "status" (exec w sample_task (worker_only 3) s)
    = Some (VStr "canceled") ∧
  field sample_task "download_filename" (exec w sample_task (worker_only 3) s)
    = None.
Proof.
  intros w s.
  destruct (cancellation_observed_at_next_checkpoint w sample_task s
              (worker_only 3)) as (_ & Hst & Hdl & _).
  - apply sample_reachable.
  - vm_compute. reflexivity.
  - vm_compute. reflexivity.
  - apply no_sweep_worker_only.
  - rewrite count_worker_only. lia.
  - split; assumption.
Defined.

Lemma finalization_exactly_once_witness :
  let w := sample_world two_row_sheet fault_at_row_3 RelRaised in
  let s := exec w sample_task (worker_only 12) sample_start in
  worker s = WExit ∧
  count_releases (effects s) = 1%nat ∧
  count_schedules (effects s) = 1%nat.
Proof.
  intros w s.
  pose proof (finalization_exactly_once w sample_task ∅ (worker_only 12)) as H.
  cbn zeta in H. destruct H as (Hend & Hfin & _).
  assert (worker s = WExit) as Hex.
  { apply Hend. rewrite count_worker_only. vm_compute. lia. }
  destruct (Hfin Hex) as (Hrel & Hsch & _).
  split; [exact Hex|]. split; [exact Hrel|exact Hsch].
Defined.

(** A failed run: the write of the second data row is refused, the
    release of the scratch directory raises, and the sweeper is scheduled
    all the same. *)
Example failed_run_is_finalized :
  let s := exec (sample_world two_row_sheet fault_at_row_3 RelRaised)
             sample_task (worker_only 12) sample_start in
  field sample_task "status" s = Some (VStr "error") ∧
  field sample_task "message" s = Some (VStr "IllegalCharacterError") ∧
  field sample_task "current" s = Some (VInt 1) ∧
  sweepers s = 1%nat ∧
  effects s = [EffRelease "/tmp/tmpk3v9" RelRaised; EffSchedule "3f9a1c0b7d2e"].
Proof. vm_compute. repeat split. Qed.

Lemma worker_failure_contained_witness :
  let w := sample_world two_row_sheet fault_at_row_3 RelRemoved in
  let s := exec w sample_task (worker_only 6) sample_start in
  field sample_task "status" (sys_step w sample_task EvWorker s)
    = Some (VStr "error") ∧
  field sample_task "message" (sys_step w sample_task EvWorker s)
    = Some (VStr "IllegalCharacterError").
Proof.
  intros w s.
  pose proof (worker_failure_contained w sample_task s "IllegalCharacterError")
    as H.
  cbn zeta in H. destruct H as (_ & Hst & Hmsg & _).
  - apply sample_reachable.
  - vm_compute. reflexivity.
  - split; [exact Hst|exact Hmsg].
Defined.

Lemma zero_rows_done_witness :
  let w := sample_world header_only_sheet no_fault RelRemoved in
  let s := exec w sample_task
             [EvWorker; EvWorker; EvCancelCheck; EvCancelCommit; EvWorker]
             sample_start in
  field sample_task "status" s = Some (VStr "done") ∧
  field sample_task "total" s = Some (VInt 0) ∧
  field sample_task "percent" s = Some (VInt 100).
Proof.
  intros w s.
  pose proof (zero_rows_done w sample_task header_only_sheet 2 ∅
                [EvWorker; EvWorker; EvCancelCheck; EvCancelCommit; EvWorker])
    as H.
  cbn zeta in H. destruct H as [_ H].
  - reflexivity.
  - vm_compute. reflexivity.
  - reflexivity.
  - vm_compute. reflexivity.
  - apply H.
    + vm_compute. lia.
    + repeat (apply not_elem_of_cons; split; [discriminate|]).
      apply not_elem_of_nil.
Defined.

(** A title cell that holds only an ideographic space is blank: the run
    has no row to translate and ends [done] with [total] 0. *)
Example blank_title_cells_are_no_work :
  let ws := [[CStr "id"; CStr "Title"]; [CInt 1; CStr (utf8 12288)]] in
  let s := exec (sample_world ws no_fault RelRemoved) sample_task
             (worker_only 3) sample_start in
  rows_to_translate ws 2 = [] ∧
  field sample_task "status" s = Some (VStr "done") ∧
  field sample_task "total" s = Some (VInt 0) ∧
  field sample_task "percent" s = Some (VInt 100).
Proof. vm_compute. repeat split. Qed.

Lemma eta_seconds_defined_nonnegative_witness :
  let w := sample_world two_row_sheet no_fault RelRemoved in
  let s := exec w sample_task (worker_only 6) sample_start in
  field sample_task "eta_seconds" s = None ∨
  ∃ z, field sample_task "eta_seconds" s = Some (VInt z) ∧ 0 ≤ z.
Proof.
  intros w s.
  apply (eta_seconds_defined_nonnegative w sample_task s).
  apply sample_reachable.
Defined.

Lemma finished_at_set_at_terminal_update_witness :
  let w := sample_world two_row_sheet fault_at_row_3 RelRemoved in
  let s := exec w sample_task (worker_only 7) sample_start in
  field sample_task "finished_at" s = Some (VFloat (w_time w TFinished)).
Proof.
  intros w s.
  destruct (finished_at_set_at_terminal_update w sample_task s)
    as (_ & _ & Herr & _).
  - apply sample_reachable.
  - apply Herr. vm_compute. reflexivity.
Defined.

(** * Further properties *)

(** ** More on the registry calls *)

(** X1.  Two updates of a task in a row are one update with the merged
    fields, the later fields winning; an update without fields changes
    nothing. *)
Theorem updates_compose (tid : string) (kv1 kv2 : pydict) (T : registry) :
  _safe_update tid kv2 (_safe_update tid kv1 T) = _safe_update tid (kv2 ∪ kv1) T ∧
  _safe_update tid ∅ T = T.
Proof.
  unfold _safe_update. destruct (T !! tid) as [st|] eqn:E.
  - destruct (decide (st = ∅)) as [->|Hne].
    + rewrite E. by rewrite !decide_True.
    + rewrite lookup_insert_eq.
      rewrite decide_False by by apply union_nonempty.
      rewrite insert_insert_eq, (assoc_L (∪)), (left_id_L ∅ (∪)).
      split; [done|]. by apply insert_id.
  - by rewrite E.
Qed.

(** X2.  After an update of a known task a snapshot reads, for every key,
    the value given by the update if it gives one and the earlier value
    otherwise; the status query answers 200; the snapshots of the other
    tasks are as before. *)
Theorem update_then_snapshot (tid : string) (kv : pydict) (T : registry) :
  _get_state tid T ≠ ∅ →
  (∀ k, _get_state tid (_safe_update tid kv T) !! k =
        match kv !! k with
        | Some v => Some v
        | None => _get_state tid T !! k
        end) ∧
  (∃ body, task_status tid (_safe_update tid kv T) = Resp 200 body) ∧
  (∀ tid', tid' ≠ tid →
           _get_state tid' (_safe_update tid kv T) = _get_state tid' T).
Proof.
  intros Hne. split; [|split].
  - intros k. rewrite snapshot_update, decide_False by done.
    destruct (kv !! k) as [v|] eqn:E.
    + by apply update_fields_set.
    + by apply update_fields_other.
  - unfold task_status. rewrite snapshot_update.
    rewrite (decide_False (P := _get_state tid T = ∅)) by done.
    rewrite decide_False by by apply union_nonempty. by eexists.
  - intros tid' Hne'. unfold _get_state.
    by rewrite update_lookup_other.
Qed.

Lemma update_then_snapshot_witness :
  _get_state "abc123"
    (_safe_update "abc123" {[ "percent" := VInt 50 ]}
       {[ "abc123" := {[ "status" := VStr "running"; "percent" := VInt 0 ]} ]})
    !! "status" = Some (VStr "running").
Proof.
  destruct (update_then_snapshot "abc123" {[ "percent" := VInt 50 ]}
              {[ "abc123" := {[ "status" := VStr "running"; "percent" := VInt 0 ]} ]})
    as (Hk & _).
  - vm_compute. discriminate.
  - rewrite Hk. reflexivity.
Defined.

(** ** More on the progress stream *)

(** X3.  The stream yields one event per poll, the event of the registry
    as polled (a snapshot, or the not-found event); a stream that is still
    open has answered every poll and continues with the later polls as a
    new stream would; a stream that has returned ignores later polls. *)
Theorem stream_follows_polls (tid : string) (polls more : list registry) :
  (∀ i e, (event_stream tid polls).1 !! i = Some e →
          ∃ T, polls !! i = Some T ∧ e = event_of_poll tid T) ∧
  ((event_stream tid polls).2 = false →
   length (event_stream tid polls).1 = length polls ∧
   event_stream tid (polls ++ more)%list =
     (((event_stream tid polls).1 ++ (event_stream tid more).1)%list,
      (event_stream tid more).2)) ∧
  ((event_stream tid polls).2 = true →
   event_stream tid (polls ++ more)%list = event_stream tid polls).
Proof.
  split; [|split].
  - induction polls as [|T rest IH]; intros i e; simpl; [done|].
    unfold event_of_poll.
    destruct (decide (_get_state tid T = ∅)) as [E|Hne].
    + destruct i; simpl; [|done]. intros [= <-]. exists T.
      by rewrite decide_True.
    + destruct (is_terminal (_get_state tid T !! "status")).
      * destruct i; simpl; [|done]. intros [= <-]. exists T.
        by rewrite decide_False.
      * destruct (event_stream tid rest) as [es closed]. simpl in *.
        destruct i; simpl; [|by apply IH].
        intros [= <-]. exists T. by rewrite decide_False.
  - induction polls as [|T rest IH]; simpl.
    + intros _. split; [done|]. by destruct (event_stream tid more).
    + destruct (decide (_get_state tid T = ∅)) as [E|Hne]; [done|].
      destruct (is_terminal (_get_state tid T !! "status")); [done|].
      destruct (event_stream tid rest) as [es closed]. simpl in *.
      intros Hc. destruct (IH Hc) as [-> ->]. done.
  - induction polls as [|T rest IH]; simpl; [done|].
    destruct (decide (_get_state tid T = ∅)) as [E|Hne]; [done|].
    destruct (is_terminal (_get_state tid T !! "status")); [done|].
    destruct (event_stream tid rest) as [es closed]. simpl in *.
    intros Hc. by rewrite (IH Hc).
Qed.

Lemma stream_follows_polls_witness :
  event_stream "abc123"
    ([ {[ "abc123" := {[ "status" := VStr "done" ]} ]} ] ++ [∅; ∅])%list
  = event_stream "abc123" [ {[ "abc123" := {[ "status" := VStr "done" ]} ]} ].
Proof.
  apply (stream_follows_polls "abc123"). reflexivity.
Defined.

(** ** More on the process *)

Section process_more.
Variables (w : world) (tk : task).
Implicit Types (s : sys) (T : registry) (pc : wpc) (k : string).

Ltac record_fields :=
  repeat first
    [ rewrite update_fields_other by reflexivity
    | erewrite update_fields_set by reflexivity ].

(** X4.  The worker, the cancellation requests and the sweeper of a task
    leave the record of every other task as it is, and so does the
    submission of the task. *)
Theorem other_tasks_untouched (tid' : string) (T0 : registry)
    (evs : list event) (s : sys) :
  tid' ≠ task_id tk →
  tasks (exec w tk evs s) !! tid' = tasks s !! tid' ∧
  tasks (start_background_task tk T0) !! tid' = T0 !! tid'.
Proof.
  intros Hne. split.
  - revert s. induction evs as [|ev evs IH]; intros s; [done|].
    rewrite exec_cons, IH. destruct ev.
    + destruct (worker_event w tk s) as (pc' & upd & effs & _ & ->).
      cbn [tasks]. destruct upd; simpl; [|done].
      by rewrite update_lookup_other.
    + simpl. by destruct (cancel_check _ _).
    + simpl. destruct (pending_cancels s); [done|]. cbn [tasks].
      unfold cancel_commit. by rewrite update_lookup_other.
    + simpl. destruct (sweepers s); [done|]. cbn [tasks].
      unfold _cleanup. by rewrite lookup_delete_ne.
  - simpl. by rewrite lookup_insert_ne.
Qed.

(** X5.  A task is evicted only after its worker has ended: while the
    worker runs the record is present and a sweep does nothing; at most
    one sweeper is ever asleep; and once the record is gone no schedule
    brings it back. *)
Theorem evicted_only_after_worker_end (s : sys) (evs : list event) :
  reachable w tk s →
  (worker s ≠ WExit →
   _get_state (task_id tk) (tasks s) ≠ ∅ ∧ sys_step w tk EvSweep s = s) ∧
  (sweepers s ≤ 1)%nat ∧
  (tasks s !! task_id tk = None →
   worker s = WExit ∧ tasks (exec w tk evs s) !! task_id tk = None).
Proof.
  intros Hs.
  pose proof (finalization_invariant w tk s Hs) as (_ & _ & Hsw & Hpres).
  split; [|split].
  - intros Hw. split; [by apply Hpres|].
    simpl. destruct (sweepers s) eqn:E; [done|].
    destruct (worker s); simpl in Hsw; try lia. done.
  - destruct (worker s); simpl in Hsw; lia.
  - intros Habs. split; [|by apply evicted_stays_evicted].
    destruct (worker s); try done;
      (destruct Hpres; [done|by apply snapshot_absent]).
Qed.

Lemma worker_keeps_cancel_flag s :
  field tk "cancel_requested" (sys_step w tk EvWorker s)
    = field tk "cancel_requested" s.
Proof.
  unfold field.
  destruct (worker_event w tk s) as (pc' & upd & effs & Htr & ->).
  cbn [tasks]. rewrite snapshot_apply_update.
  destruct Htr; try done;
    (destruct (decide (_get_state (task_id tk) (tasks s) = ∅)) as [->|];
     [done|]); by record_fields.
Qed.

(** X6.  The cancellation flag is a latch: no step of the worker changes
    it, and once it is set every event short of the eviction leaves it
    set. *)
Theorem cancel_flag_latch (s : sys) (ev : event) :
  field tk "cancel_requested" (sys_step w tk EvWorker s)
    = field tk "cancel_requested" s ∧
  (ev ≠ EvSweep →
   truthy (field tk "cancel_requested" s) = true →
   truthy (field tk "cancel_requested" (sys_step w tk ev s)) = true).
Proof.
  pose proof (worker_keeps_cancel_flag s) as Hworker.
  split; [done|]. intros Hev Hset.
  destruct ev; [by rewrite Hworker| | |done].
  - by apply (cancel_event_state w tk EvCancelCheck s (or_introl eq_refl)).
  - by apply (cancel_event_state w tk EvCancelCommit s (or_intror eq_refl)).
Qed.

(** X7.  The status moves along idle -> running -> done | error |
    canceled only: an event short of the eviction leaves the status as it
    is, or takes it from idle to running, or from running to a terminal
    status; cancellation requests never change it. *)
Theorem status_transitions (s : sys) (ev : event) :
  reachable w tk s →
  ev ≠ EvSweep →
  let a := field tk "status" s in
  let b := field tk "status" (sys_step w tk ev s) in
  (ev ≠ EvWorker → b = a) ∧
  (b = a ∨
   (a = Some (VStr "idle") ∧ b = Some (VStr "running")) ∨
   (a = Some (VStr "running") ∧ is_terminal b = true)).
Proof.
  intros Hs Hev a b. unfold a, b, field. clear a b.
  assert (ev ≠ EvWorker →
          _get_state (task_id tk) (tasks (sys_step w tk ev s)) !! "status" =
            _get_state (task_id tk) (tasks s) !! "status") as Hother.
  { intros Hev'. destruct ev; [done| | |done].
    - by apply (cancel_event_state w tk EvCancelCheck s (or_introl eq_refl)).
    - by apply (cancel_event_state w tk EvCancelCommit s (or_intror eq_refl)). }
  split; [done|].
  destruct (decide (ev = EvWorker)) as [->|Hev']; [|left; by apply Hother].
  pose proof (worker_invariant_holds w tk s Hs) as Hinv.
  pose proof (finalization_invariant w tk s Hs) as (_ & _ & _ & Hpres).
  destruct (worker_event w tk s) as (pc' & upd & effs & Htr & ->).
  cbn [tasks]. rewrite snapshot_apply_update.
  unfold worker_invariant in Hinv.
  remember (worker s) as pc eqn:Hpc.
  remember (_get_state (task_id tk) (tasks s)) as st eqn:Hst.
  destruct Htr; try (by left);
    rewrite decide_False by (by apply Hpres);
    destruct Hinv as (Hstatus & _); rewrite Hstatus; record_fields;
    try (by left); try (right; left; done); right; right; done.
Qed.
End process_more.

(** ** The title column and the rows to translate *)

Lemma find_title_Some cells idx col :
  find_title cells idx = Some col ↔
  ∃ n c, col = idx + Z.of_nat n ∧ cells !! n = Some c ∧ is_title c = true ∧
         ∀ j c', (j < n)%nat → cells !! j = Some c' → is_title c' = false.
Proof.
  revert idx. induction cells as [|c cells IH]; intros idx; simpl.
  - split; [done|]. by intros (n & c & _ & ? & _).
  - fold (is_title c). destruct (is_title c) eqn:Hc.
    + split.
      * intros [= <-]. exists 0%nat, c. repeat split; [lia|done|]. lia.
      * intros (n & c' & -> & Hn & Hc' & Hfirst).
        destruct n as [|n]; [f_equal; lia|].
        specialize (Hfirst 0%nat c ltac:(lia) eq_refl). congruence.
    + rewrite IH. split.
      * intros (n & c' & -> & Hn & Hc' & Hfirst).
        exists (S n), c'. repeat split; [lia|done..|].
        intros [|j] c'' Hj; simpl; [by intros [= <-]|].
        apply Hfirst. lia.
      * intros (n & c' & -> & Hn & Hc' & Hfirst).
        destruct n as [|n]; simpl in Hn; [congruence|].
        exists n, c'. repeat split; [lia|done..|].
        intros j c'' Hj Hl. by apply (Hfirst (S j) c''); [lia|].
Qed.

Lemma find_title_None cells idx :
  find_title cells idx = None ↔ Forall (λ c, is_title c = false) cells.
Proof.
  revert idx. induction cells as [|c cells IH]; intros idx; simpl.
  - split; [by constructor|done].
  - fold (is_title c). destruct (is_title c) eqn:Hc.
    + split; [done|]. intros H. inversion H; congruence.
    + rewrite IH. split; [by constructor|]. by inversion 1.
Qed.

Lemma row_cells_lookup ws row n :
  row_cells ws row !! n =
    if decide (Z.of_nat n < max_column ws) then
      Some (cell_value ws row (1 + Z.of_nat n))
    else None.
Proof.
  unfold row_cells. rewrite list_lookup_fmap.
  destruct (decide (Z.of_nat n < max_column ws)).
  - by rewrite lookup_seqZ_lt.
  - by rewrite lookup_seqZ_ge by lia.
Qed.

Lemma cell_beyond_max_column ws row column :
  max_column ws < column → cell_value ws row column = CNone.
Proof.
  unfold max_column, cell_value. intros Hc.
  destruct (ws !! Z.to_nat (row - 1)) as [cells|] eqn:E; simpl; [|done].
  rewrite lookup_ge_None_2; [done|].
  assert (length cells ≤
            foldr (λ cells m, Nat.max (length cells) m) 0%nat ws)%nat; [|lia].
  clear Hc. revert E. generalize (Z.to_nat (row - 1)).
  induction ws as [|r ws IH]; intros i; [done|].
  destruct i; simpl.
  - intros [= ->]. lia.
  - intros Hi. specialize (IH _ Hi). lia.
Qed.

(** X8.  The title column is the leftmost column of row 1 whose text,
    stripped and in lower case, is "title", and it lies within the sheet;
    the search fails exactly when no header cell reads so. *)
Theorem title_column_is_leftmost (ws : worksheet) (col : Z) :
  (find_title (row_cells ws 1) 1 = Some col ↔
   1 ≤ col ≤ max_column ws ∧
   is_title (cell_value ws 1 col) = true ∧
   ∀ c, 1 ≤ c < col → is_title (cell_value ws 1 c) = false) ∧
  (find_title (row_cells ws 1) 1 = None ↔
   ∀ c, 1 ≤ c → is_title (cell_value ws 1 c) = false).
Proof.
  split.
  - rewrite find_title_Some. split.
    + intros (n & c & -> & Hn & Hc & Hfirst).
      rewrite row_cells_lookup in Hn. case_decide; [|done].
      injection Hn as <-. repeat split; [lia..|done|].
      intros c' Hc'. apply (Hfirst (Z.to_nat (c' - 1))); [lia|].
      rewrite row_cells_lookup, decide_True by lia. do 2 f_equal. lia.
    + intros ((Hlo & Hhi) & Hc & Hfirst).
      exists (Z.to_nat (col - 1)), (cell_value ws 1 col).
      rewrite row_cells_lookup, decide_True by lia.
      repeat split; [lia|do 2 f_equal; lia|done|].
      intros j c' Hj. rewrite row_cells_lookup. case_decide; [|done].
      intros [= <-]. apply Hfirst. lia.
  - rewrite find_title_None, Forall_lookup. split.
    + intros Hall c Hc.
      destruct (decide (c ≤ max_column ws)) as [Hle|Hgt].
      * apply (Hall (Z.to_nat (c - 1))).
        rewrite row_cells_lookup, decide_True by lia. do 2 f_equal. lia.
      * by rewrite cell_beyond_max_column by lia.
    + intros Hall n c. rewrite row_cells_lookup. case_decide; [|done].
      intros [= <-]. apply Hall. lia.
Qed.

Lemma StronglySorted_filter {A} (R : A → A → Prop) (f : A → bool) l :
  StronglySorted R l → StronglySorted R (List.filter f l).
Proof.
  induction 1 as [|x l Hl IH Hx]; simpl; [constructor|].
  destruct (f x); [|done]. constructor; [done|].
  apply Forall_forall. intros y Hy%list_elem_of_In%List.filter_In.
  rewrite Forall_forall in Hx. apply Hx, list_elem_of_In, Hy.
Qed.

Lemma StronglySorted_seqZ m n : StronglySorted Z.lt (seqZ m n).
Proof.
  destruct (decide (n ≤ 0)) as [|Hn]; [rewrite seqZ_nil by done; constructor|].
  rewrite <- (Z2Nat.id n) by lia. generalize (Z.to_nat n). clear n Hn.
  intros n. revert m. induction n as [|n IH]; intros m.
  - rewrite seqZ_nil by done. constructor.
  - rewrite seqZ_cons by lia. constructor.
    + replace (Z.pred (Z.of_nat (S n))) with (Z.of_nat n) by lia. apply IH.
    + apply Forall_seqZ. intros. lia.
Qed.

(** X9.  The rows to translate are exactly the rows 2 to [max_row] whose
    title cell is not blank, in increasing order and without repetition;
    there are at most [max_row - 1] of them.  An empty title cell reads
    "None" and is translated.  The selection is made on the sheet after
    the translation column has been inserted and its header written, and
    is the selection on the uploaded sheet: neither the rows nor the
    title cells have changed. *)
Theorem rows_to_translate_spec (ws : worksheet) (col : Z) :
  (∀ r, r ∈ rows_to_translate ws col ↔
        2 ≤ r ≤ max_row ws ∧ has_text (cell_value ws r col) = true) ∧
  StronglySorted Z.lt (rows_to_translate ws col) ∧
  Z.of_nat (length (rows_to_translate ws col)) ≤ max_row ws - 1 ∧
  has_text CNone = true ∧
  (1 ≤ col →
   rows_to_translate
     (set_cell (insert_cols ws (col + 1)) 1 (col + 1) (CStr "中文")) col
   = rows_to_translate ws col).
Proof.
  split; [|split; [|split; [|split]]];
    [| | | |by apply rows_to_translate_prepared];
    unfold rows_to_translate.
  - intros r. rewrite list_elem_of_In, List.filter_In.
    rewrite <- list_elem_of_In, elem_of_seqZ. unfold has_text.
    split; intros [? ?]; (split; [lia|done]).
  - apply StronglySorted_filter, StronglySorted_seqZ.
  - pose proof (List.filter_length_le
                  (λ r, negb (String.eqb (strip (py_str (cell_value ws r col))) ""))
                  (seqZ 2 (max_row ws - 1))) as Hle.
    rewrite length_seqZ in Hle. unfold max_row in *. lia.
  - reflexivity.
Qed.

(** ** Progress counters *)

Lemma py_int_div a b : 0 < b → py_int (inject_Z a / inject_Z b) = a ÷ b.
Proof.
  intros Hb. destruct b as [|p|p]; try lia.
  unfold py_int, Qdiv, Qinv, Qmult. simpl.
  by rewrite Z.mul_1_r.
Qed.

Lemma percent_of_value total idx :
  1 ≤ total → percent_of total idx = Some (idx * 100 ÷ total).
Proof.
  intros Htot. unfold percent_of. rewrite pydiv_positive.
  - simpl. by rewrite py_int_div by lia.
  - unfold Qlt. simpl. lia.
Qed.

Lemma percent_in_range total done_units :
  0 ≤ done_units ≤ total → 0 ≤ done_units * 100 ÷ total ≤ 100.
Proof.
  intros Hd. destruct (decide (total = 0)) as [->|Hne].
  - by destruct (done_units * 100).
  - split; [apply Z.quot_pos; lia|].
    apply Z.quot_le_upper_bound; lia.
Qed.

Section progress.
Variables (w : world) (tk : task).
Implicit Types (s : sys) (T : registry) (pc : wpc) (k : string).

Ltac counter_fields :=
  repeat first
    [ rewrite update_fields_other by reflexivity
    | erewrite update_fields_set by reflexivity ].

Lemma loop_progress_record (st : pydict) total idx :
  st !! "percent" = Some (VInt ((idx - 1) * 100 ÷ total)) →
  st !! "current" = Some (VInt (idx - 1)) →
  st !! "total" = Some (VInt total) →
  1 ≤ idx → idx - 1 ≤ total →
  progress_record st.
Proof.
  intros Hp Hc Ht ? ?. exists ((idx - 1) * 100 ÷ total), (idx - 1), total.
  repeat split; try done; try lia; apply percent_in_range; lia.
Qed.

Lemma progress_record_update (kv st : pydict) :
  kv !! "percent" = None → kv !! "current" = None → kv !! "total" = None →
  progress_record st → progress_record (kv ∪ st).
Proof.
  intros ? ? ? (p & cur & tot & ? & ? & ? & ?). exists p, cur, tot.
  by rewrite !update_fields_other by done.
Qed.

Lemma progress_record_complete (kv st : pydict) :
  kv !! "percent" = Some (VInt 100) →
  kv !! "current" = None → kv !! "total" = None →
  progress_record st → progress_record (kv ∪ st).
Proof.
  intros Hp ? ? (p & cur & tot & ? & ? & ? & ? & ?). exists 100, cur, tot.
  rewrite (update_fields_set _ _ _ _ Hp).
  rewrite !update_fields_other by done. repeat split; try done; lia.
Qed.

Lemma progress_invariant_holds s : reachable w tk s → progress_invariant tk s.
Proof.
  induction 1 as [T0|s ev Hs IH].
  - unfold progress_invariant. rewrite snapshot_start. done.
  - pose proof (finalization_invariant w tk s Hs) as (_ & _ & Hsw & Hpres).
    pose proof (worker_invariant_holds w tk s Hs) as Hinv.
    destruct (decide (ev = EvWorker)) as [->|Hev].
    + destruct (worker_event w tk s) as (pc' & upd & effs & Htr & ->).
      unfold progress_invariant, worker_invariant in *. cbn [worker tasks].
      rewrite snapshot_apply_update.
      remember (worker s) as pc eqn:Hpc.
      remember (_get_state (task_id tk) (tasks s)) as st eqn:Hst.
      destruct Htr; try done;
        try (rewrite decide_False by (by apply Hpres)).
      * destruct IH as (? & ? & ?). counter_fields. done.
      * right. apply progress_record_update; try done.
        destruct IH as (? & ? & ?). exists 0, 0, 0. repeat split; try done; lia.
      * destruct IH as (? & ? & ?). by counter_fields.
      * right. destruct Hinv as (_ & _ & _ & ? & ? & ?).
        apply progress_record_complete; try done.
        exists 0, 0, (c_total c). repeat split; try done; lia.
      * right. destruct Hinv as (_ & _ & ? & ? & ? & ?).
        apply progress_record_update; try done.
        eapply loop_progress_record; try done. simpl in *. lia.
      * right. destruct Hinv as (_ & _ & ? & ? & ? & ?).
        apply progress_record_complete; try done.
        eapply loop_progress_record; try done. simpl in *. lia.
      * destruct Hinv as (_ & _ & ? & ? & ? & ?).
        eapply loop_progress_record; try done. simpl in *. lia.
      * right. by apply progress_record_update.
      * right. destruct Hinv as (_ & _ & ? & ? & ? & ?).
        apply progress_record_update; try done.
        eapply loop_progress_record; try done. lia.
      * destruct Hinv as (_ & _ & ? & ? & _). counter_fields. cbn [c_total].
        match goal with H : percent_of _ _ = Some _ |- _ =>
          rewrite percent_of_value in H by lia; injection H as Hpct end.
        subst pct.
        do 3 f_equal. lia.
    + unfold progress_invariant, progress_record in *.
      rewrite other_event_worker by done.
      assert (ev = EvCancelCheck ∨ ev = EvCancelCommit ∨ ev = EvSweep) as Hc
        by (destruct ev; auto; done).
      destruct Hc as [-> | [-> | ->]].
      * pose proof (cancel_event_state w tk EvCancelCheck s (or_introl eq_refl))
          as (_ & Hk & _ & _ & Habs). cbn zeta in *.
        rewrite !Hk by done.
        destruct (worker s); try done;
          (destruct IH as [E|IH]; [left; by apply Habs|by right]).
      * pose proof (cancel_event_state w tk EvCancelCommit s (or_intror eq_refl))
          as (_ & Hk & _ & _ & Habs). cbn zeta in *.
        rewrite !Hk by done.
        destruct (worker s); try done;
          (destruct IH as [E|IH]; [left; by apply Habs|by right]).
      * simpl. destruct (sweepers s) eqn:E; [done|]. cbn [worker tasks].
        rewrite snapshot_cleanup.
        destruct (worker s); simpl in Hsw; try lia. by left.
Qed.

(** X10.  As long as the task is in the registry its record has an integer
    [percent] between 0 and 100 and integers [current] and [total] with
    0 <= current <= total. *)
Theorem progress_counters_in_range (s : sys) :
  reachable w tk s →
  _get_state (task_id tk) (tasks s) ≠ ∅ →
  ∃ p cur tot,
    field tk "percent" s = Some (VInt p) ∧
    field tk "current" s = Some (VInt cur) ∧
    field tk "total" s = Some (VInt tot) ∧
    0 ≤ p ≤ 100 ∧ 0 ≤ cur ≤ tot.
Proof.
  intros Hs Hne.
  pose proof (progress_invariant_holds s Hs) as Hprog.
  pose proof (worker_invariant_holds w tk s Hs) as Hinv.
  unfold progress_invariant, worker_invariant, field in *.
  change (progress_record (_get_state (task_id tk) (tasks s))).
  destruct (worker s); try (by destruct Hprog); try done.
  - destruct Hprog as (? & ? & ?). exists 0, 0, 0. repeat split; try done; lia.
  - destruct Hprog as (? & ? & ?). exists 0, 0, 0. repeat split; try done; lia.
  - destruct Hinv as (_ & _ & _ & ? & ? & ?).
    exists 0, 0, (c_total c). repeat split; try done; lia.
  - destruct Hinv as (_ & _ & ? & ? & ? & ?).
    eapply loop_progress_record; try done. lia.
  - destruct Hinv as (_ & _ & ? & ? & ? & ?).
    eapply loop_progress_record; try done. lia.
Qed.

(** X11.  No event short of the eviction lowers [percent] or [current]:
    each step of the worker keeps or raises them, and cancellation
    requests leave them alone. *)
Theorem progress_never_decreases (s : sys) (ev : event) :
  reachable w tk s →
  ev ≠ EvSweep →
  (∀ p p', field tk "percent" s = Some (VInt p) →
           field tk "percent" (sys_step w tk ev s) = Some (VInt p') →
           p ≤ p') ∧
  (∀ c c', field tk "current" s = Some (VInt c) →
           field tk "current" (sys_step w tk ev s) = Some (VInt c') →
           c ≤ c').
Proof.
  intros Hs Hev. unfold field.
  destruct (decide (ev = EvWorker)) as [->|Hev'].
  2: { assert (ev = EvCancelCheck ∨ ev = EvCancelCommit) as Hc
         by (destruct ev; auto; done).
       pose proof (cancel_event_state w tk ev s Hc) as (_ & Hk & _).
       cbn zeta in Hk. rewrite !Hk by done.
       split; intros ? ? E1 E2; rewrite E1 in E2; injection E2 as <-; lia. }
  pose proof (progress_invariant_holds s Hs) as Hprog.
  pose proof (worker_invariant_holds w tk s Hs) as Hinv.
  pose proof (finalization_invariant w tk s Hs) as (_ & _ & _ & Hpres).
  destruct (worker_event w tk s) as (pc' & upd & effs & Htr & ->).
  cbn [tasks]. rewrite snapshot_apply_update.
  unfold progress_invariant, worker_invariant in *.
  remember (worker s) as pc eqn:Hpc.
  remember (_get_state (task_id tk) (tasks s)) as st eqn:Hst.
  assert (∀ k v v', st !! k = Some (VInt v) → st !! k = Some (VInt v') →
                    v ≤ v') as Hsame.
  { intros k v v' E1 E2. rewrite E1 in E2. injection E2 as <-. lia. }
  destruct Htr; try (split; by apply Hsame);
    rewrite decide_False by (by apply Hpres); counter_fields;
    try (split; by apply Hsame).
  - destruct Hprog as (Hp & _). rewrite Hp.
    split; [|by apply Hsame]. intros ? ? [= <-] [= <-]. lia.
  - destruct Hprog as (_ & Hc & _). rewrite Hc.
    split; [by apply Hsame|]. intros ? ? [= <-] [= <-]. lia.
  - rewrite Hprog. split; [|by apply Hsame].
    intros ? ? [= <-] [= <-]. lia.
  - destruct Hinv as (_ & _ & ? & ? & _). rewrite Hprog.
    split; [|by apply Hsame]. intros ? ? [= <-] [= <-].
    apply percent_in_range. simpl in *. lia.
  - destruct Hinv as (_ & _ & ? & ? & _ & Hc). rewrite Hprog, Hc.
    match goal with H : percent_of _ _ = Some _ |- _ =>
      rewrite percent_of_value in H by lia; injection H as Hpct end.
    subst pct.
    split; intros ? ? [= <-] [= <-]; [|lia].
    apply Z.quot_le_mono; lia.
Qed.
End progress.

(** ** Cells of a sheet after a write and after a column insertion *)






(** ** The sheet that the worker writes *)


(** ** The output file *)

(** What [prepare] returns, read from the workbook. *)
Lemma prepare_inr w c0 rows0 :
  prepare w = inr (c0, rows0) →
  ∃ ws col,
    w_load w = inr (Some ws) ∧
    find_title (row_cells ws 1) 1 = Some col ∧ 1 ≤ col ∧
    c0 = WCtx (set_cell (insert_cols ws (col + 1)) 1 (col + 1) (CStr "中文"))
              col (col + 1) (Z.of_nat (length rows0)) ∧
    rows0 = rows_to_translate ws col.
Proof.
  unfold prepare. destruct (w_load w) as [?|[ws|]]; [done| |done].
  destruct (find_title _ _) as [col|] eqn:Htitle; [|done].
  destruct (w_fault w SiteInsert); [done|].
  intros [= <- <-]. exists ws, col.
  pose proof (find_title_lower_bound _ _ _ Htitle).
  by rewrite rows_to_translate_prepared by done.
Qed.

Section output.
Variables (w : world) (tk : task).
Implicit Types (s : sys) (T : registry) (pc : wpc) (k : string).

Ltac output_fields :=
  repeat first
    [ rewrite update_fields_other by reflexivity
    | erewrite update_fields_set by reflexivity ].

Lemma output_invariant_holds s : reachable w tk s → output_invariant w tk s.
Proof.
  induction 1 as [T0|s ev Hs IH].
  - split; [done|]. exists []. split; [done|]. left. split; [done|].
    by rewrite snapshot_start.
  - pose proof (finalization_invariant w tk s Hs) as (_ & _ & Hsw & Hpres).
    pose proof (worker_invariant_holds w tk s Hs) as Hinv.
    destruct IH as (Hsheet & saved & Heffs & Hsaved).
    destruct (decide (ev = EvWorker)) as [->|Hev].
    + destruct (worker_event w tk s) as (pc' & upd & effs & Htr & ->).
      unfold output_invariant, worker_invariant in *. cbn [worker tasks effects].
      rewrite snapshot_apply_update, Heffs.
      remember (worker s) as pc eqn:Hpc.
      remember (_get_state (task_id tk) (tasks s)) as st eqn:Hst.
      destruct Htr; cbn [finalization_effects finished] in *;
        rewrite ?app_nil_r in *.
      * split; [done|]. exists saved. split; [by rewrite ?app_nil_r|].
        destruct Hsaved as [[-> ?]|(? & _)]; [|done]. left.
        rewrite decide_False by (by apply Hpres). by output_fields.
      * split; [done|]. exists saved. split; [by rewrite ?app_nil_r|].
        destruct Hsaved as [[-> ?]|(? & _)]; [|done]. left.
        rewrite decide_False by (by apply Hpres). by output_fields.
      * split; [done|]. exists saved. split; [by rewrite ?app_nil_r|].
        destruct Hsaved as [[-> ?]|(? & _)]; [|done]. left.
        rewrite decide_False by (by apply Hpres). by output_fields.
      * split; [done|]. exists saved. split; [by rewrite ?app_nil_r|].
        destruct Hsaved as [[-> ?]|(? & _)]; [|done]. left.
        rewrite decide_False by (by apply Hpres). by output_fields.
      * split.
        { exists []. exists c, rows. by repeat split. }
        exists saved. split; [by rewrite ?app_nil_r|].
        destruct Hsaved as [[-> ?]|(? & _)]; [|done]. by left.
      * split; [done|]. exists saved. split; [by rewrite ?app_nil_r|].
        destruct Hsaved as [[-> ?]|(? & _)]; [|done]. left.
        rewrite decide_False by (by apply Hpres). by output_fields.
      * split; [done|].
        destruct Hsaved as [[-> ?]|(? & _)]; [|done].
        destruct Hsheet
          as (done & c0 & rows0 & Hprep & Hrows & _ & _ & _ & Hws).
        rewrite app_nil_r in Hrows. subst done.
        eexists. split; [by rewrite app_nil_r|]. right. split; [done|].
        rewrite decide_False by (by apply Hpres). output_fields.
        split; [by right|]. exists c0, rows0. by rewrite Hws.
      * split; [done|]. exists saved. split; [by rewrite ?app_nil_r|].
        destruct Hsaved as [[-> ?]|(? & _)]; [|done]. by left.
      * split; [done|]. exists saved. split; [by rewrite ?app_nil_r|].
        destruct Hsaved as [[-> ?]|(? & _)]; [|done]. by left.
      * split; [done|]. exists saved. split; [by rewrite ?app_nil_r|].
        destruct Hsaved as [[-> ?]|(? & _)]; [|done]. left.
        rewrite decide_False by (by apply Hpres). by output_fields.
      * split; [done|]. exists saved. split; [by rewrite ?app_nil_r|].
        destruct Hsaved as [[-> ?]|(? & _)]; [|done]. left.
        rewrite decide_False by (by apply Hpres). by output_fields.
      * split.
        { destruct Hsheet
            as (done & c0 & rows0 & Hprep & Hrows & Ht & Hi & Hn & Hws).
          exists (done ++ [row])%list, c0, rows0.
          cbn [c_ws c_title c_insert c_total].
          repeat split; try done.
          - by rewrite <- (assoc_L (++)).
          - unfold translate_rows. rewrite foldl_app. simpl.
            unfold translate_row at 1. fold (translate_rows w (c_title c0)
              (c_insert c0) (c_ws c0) done). by rewrite <- Hws, Ht, Hi. }
        exists saved. split; [by rewrite ?app_nil_r|].
        destruct Hsaved as [[-> ?]|(? & _)]; [|done]. left.
        rewrite decide_False by (by apply Hpres). by output_fields.
      * split; [done|]. exists saved.
        split; [by rewrite ?app_nil_r, <- ?(assoc_L (++))|].
        destruct Hsaved as [[-> ?]|?]; [by left|by right].
      * split; [done|]. exists saved.
        split; [by rewrite ?app_nil_r, <- ?(assoc_L (++))|].
        destruct Hsaved as [[-> ?]|?]; [by left|by right].
      * split; [done|]. exists saved.
        split; [by rewrite ?app_nil_r, <- ?(assoc_L (++))|].
        destruct Hsaved as [[-> ?]|?]; [by left|by right].
    + unfold output_invariant.
      rewrite other_event_worker, other_event_effects by done.
      split; [done|]. exists saved. split; [done|].
      assert (ev = EvCancelCheck ∨ ev = EvCancelCommit ∨ ev = EvSweep) as Hc
        by (destruct ev; auto; done).
      destruct Hc as [-> | [-> | ->]].
      * pose proof (cancel_event_state w tk EvCancelCheck s (or_introl eq_refl))
          as (_ & Hk & _ & _ & Habs). cbn zeta in *.
        rewrite !Hk by done.
        destruct Hsaved as [?|(? & [?|?] & ?)]; [by left|right..];
          (split; [done|]); (split; [|done]); [left; by apply Habs|by right].
      * pose proof (cancel_event_state w tk EvCancelCommit s (or_intror eq_refl))
          as (_ & Hk & _ & _ & Habs). cbn zeta in *.
        rewrite !Hk by done.
        destruct Hsaved as [?|(? & [?|?] & ?)]; [by left|right..];
          (split; [done|]); (split; [|done]); [left; by apply Habs|by right].
      * simpl. destruct (sweepers s) eqn:E; [done|]. cbn [worker tasks].
        rewrite snapshot_cleanup.
        destruct Hsaved as [[-> ?]|(? & _ & ?)]; [by left|right].
        split; [done|]. split; [by left|done].
Qed.
End output.

(** ** The saved workbook and its download *)

Lemma interleaving_Forall {A} (P : A → Prop) l1 l2 l :
  interleaving l1 l2 l → Forall P l1 → Forall P l2 → Forall P l.
Proof.
  induction 1 as [|x l1 l2 l _ IH|x l1 l2 l _ IH]; intros H1 H2; [done|..].
  - apply Forall_cons in H1 as [? ?]. constructor; [done|by apply IH].
  - apply Forall_cons in H2 as [? ?]. constructor; [done|by apply IH].
Qed.

Lemma fs_step_keeps fs path e fs' :
  fs_step fs e fs' → keeps path e = true → fs' !! path = fs !! path.
Proof.
  intros Hstep Hkeep. destruct Hstep as [p out|base|base|base o fs' _ Hout _|tid];
    simpl in Hkeep; try done.
  - apply lookup_insert_ne. intros ->. by rewrite String.eqb_refl in Hkeep.
  - rewrite map_lookup_filter.
    destruct (fs !! path) as [out|]; simpl; [|done].
    rewrite option_guard_True; [done|]. simpl.
    by destruct (under base path).
  - apply Hout. by destruct (under base path).
Qed.

Lemma fs_run_keeps path effs fs fs' :
  fs_run fs effs fs' →
  Forall (λ e, keeps path e = true) effs →
  fs' !! path = fs !! path.
Proof.
  induction 1 as [fs|fs e fs1 effs fs2 Hstep _ IH]; intros Hall; [done|].
  apply Forall_cons in Hall as [He Hall].
  rewrite IH by done. by eapply fs_step_keeps.
Qed.

(** One run of the effects is the one in which a release that fails
    removes nothing. *)
Lemma fs_run_files_after effs : ∀ fs, fs_run fs effs (files_after fs effs).
Proof.
  induction effs as [|e effs IH]; intros fs; [constructor|].
  change (files_after fs (e :: effs)) with (files_after (run_effect fs e) effs).
  econstructor; [|apply IH].
  destruct e as [p out|base []|tid]; cbn [run_effect].
  - apply fs_save.
  - apply fs_absent.
  - apply fs_removed.
  - apply fs_partly; [by left|done|done].
  - apply fs_partly; [by right|done|done].
  - apply fs_schedule.
Qed.

(** The file saved by one thread is still there after the later effects
    of that thread and the effects of the others, when these keep it. *)
Lemma saved_file_kept path out later others all :
  interleaving (EffSave path out :: later) others all →
  Forall (λ e, keeps path e = true) later →
  Forall (λ e, keeps path e = true) others →
  ∀ fs fs', fs_run fs all fs' → fs' !! path = Some out.
Proof.
  intros Hall Hlater. remember (EffSave path out :: later) as mine eqn:Hmine.
  induction Hall as [|x l1 l2 l Hl _|x l1 l2 l Hl IH];
    intros Hothers fs fs' Hrun.
  - done.
  - injection Hmine as -> ->.
    inversion Hrun as [|? ? fs1 ? ? Hstep Hrest]; subst.
    inversion Hstep; subst.
    erewrite fs_run_keeps; [apply lookup_insert_eq|exact Hrest|].
    by eapply interleaving_Forall.
  - apply Forall_cons in Hothers as [Hx Hothers].
    inversion Hrun as [|? ? fs1 ? ? Hstep Hrest]; subst.
    by eapply IH.
Qed.

Section output_theorems.
Variables (w : world) (tk : task).
Implicit Types (s : sys) (T : registry) (pc : wpc) (k : string).





(** X13.  A record with a download reference belongs to a task that is
    done, at 100 percent, with [finished_at] set; the reference is the
    output name derived from the upload, the snapshot advertises
    "/download/<name>", and the worker has saved a workbook under that
    name in the temporary directory.  [download_file] serves that very
    workbook under that name whenever the effects of the other threads on
    the file system, interleaved in any way with those of the worker,
    neither write the output path nor release a directory above it, and
    the output path does not lie in the task's own scratch directory,
    whatever a failed release has removed (the output path depends on
    the name of the upload only, so another task uploaded under the same
    name does write it). *)
Theorem advertised_download_is_served (s : sys) (v : pyval) :
  reachable w tk s →
  field tk "download_filename" s = Some v →
  let name := output_filename_of tk in
  let path := path_join (w_tmpdir w) name in
  v = VStr name ∧
  field tk "status" s = Some (VStr "done") ∧
  field tk "percent" s = Some (VInt 100) ∧
  field tk "finished_at" s = Some (VFloat (w_time w TFinished)) ∧
  ev_download_url
    (progress_event (task_id tk) (_get_state (task_id tk) (tasks s)))
    = Some (VStr ("/download/" ++ name)) ∧
  ∃ out,
    EffSave path out ∈ effects s ∧
    ∀ (fs0 fs : gmap string worksheet) (others all : list effect),
      interleaving (effects s) others all →
      Forall (λ e, keeps path e = true) others →
      under (dirname (file_path tk)) path = false →
      fs_run fs0 all fs →
      download_file (w_tmpdir w) fs name = SendFile path name out.
Proof.
  intros Hs Hdl name path. unfold field in *.
  destruct (output_invariant_holds w tk s Hs) as (_ & saved & Heffs & Hsaved).
  destruct Hsaved as [[_ E]|(Hfin & [E|(E & Hst & Hp & Hf)] & c0 & rows0 & _ & ->)];
    [congruence|by rewrite E in Hdl|].
  rewrite E in Hdl. injection Hdl as <-.
  split; [done|]. split; [done|]. split; [done|]. split; [done|]. split.
  { unfold ev_download_url, progress_event, download_url. simpl.
    rewrite E. simpl.
    destruct (String.eqb (output_filename_of tk) "") eqn:Hempty; [|done].
    apply String.eqb_eq in Hempty. unfold output_filename_of in Hempty.
    by destruct (splitext_root (basename (file_path tk))). }
  eexists. split.
  { rewrite Heffs. apply elem_of_app. left. by apply list_elem_of_singleton. }
  intros fs0 fs others all Hall Hothers Hu Hrun.
  unfold download_file. fold name path.
  rewrite Heffs in Hall. simpl in Hall.
  erewrite saved_file_kept; [done|exact Hall| |done|exact Hrun].
  destruct (worker s); simpl; repeat constructor; simpl; by rewrite Hu.
Qed.
End output_theorems.

(** ** A run without failure and without cancellation *)

Section clean_runs.
Variables (w : world) (tk : task).
Implicit Types (s : sys) (T : registry) (pc : wpc) (k : string).

Ltac run_fields :=
  repeat first
    [ rewrite update_fields_other by reflexivity
    | erewrite update_fields_set by reflexivity ].

Lemma clean_run_step c0 rows0 s ev :
  prepare w = inr (c0, rows0) →
  rows0 ≠ [] →
  (∀ st, w_fault w st = None) →
  reachable w tk s →
  clean_run w tk (Z.of_nat (length rows0)) s →
  ev ≠ EvCancelCommit → ev ≠ EvSweep →
  clean_run w tk (Z.of_nat (length rows0)) (sys_step w tk ev s).
Proof.
  intros Hprep Hrows Hfault Hs (Hne & Hflag & Hpc) Hev1 Hev2.
  destruct ev; [| |done|done].
  2: { unfold clean_run. rewrite other_event_worker by done.
       simpl. by destruct (cancel_check _ _). }
  pose proof (worker_invariant_holds w tk s Hs) as Hinv.
  pose proof (output_invariant_holds w tk s Hs) as (Hsheet & _).
  pose proof (worker_keeps_cancel_flag w tk s) as Hkeep.
  unfold clean_run, field in *. rewrite Hkeep.
  destruct (worker_event w tk s) as (pc' & upd & effs & Htr & ->).
  cbn [worker tasks]. rewrite snapshot_apply_update.
  unfold worker_invariant in Hinv.
  remember (worker s) as pc eqn:Hpc'.
  remember (_get_state (task_id tk) (tasks s)) as st eqn:Hst.
  assert (∀ kv, (if decide (st = ∅) then ∅ else kv ∪ st) ≠ ∅) as Hne'.
  { intros kv. rewrite decide_False by done. by apply union_nonempty. }
  destruct Htr; try done; try (by repeat split);
    rewrite ?decide_False by done.
  - congruence.
  - rewrite Hprep in Hsheet. injection Hsheet as <- <-.
    apply prepare_inr in Hprep as (? & ? & _ & _ & _ & -> & _).
    simpl in *. by destruct rows0.
  - unfold save_output in *. by rewrite Hfault in *.
  - split; [by apply union_nonempty|]. split; [done|]. run_fields.
    destruct Hinv as (_ & _ & ? & Hidx & Htot & Hcur).
    destruct Hsheet as (done & c1 & rows1 & Hprep1 & Hrows1 & _ & _ & Hn & _).
    rewrite Hprep in Hprep1. injection Hprep1 as <- <-.
    apply prepare_inr in Hprep as (? & ? & _ & _ & _ & -> & _).
    simpl in *. rewrite Hn in *.
    rewrite Htot, Hcur. repeat split; try done. do 2 f_equal. lia.
  - congruence.
  - destruct Hinv as (_ & _ & ? & ? & _).
    match goal with H : unit_of_work _ _ _ _ _ = inl _ |- _ =>
      apply unit_of_work_arith in H; [|lia..] end.
    by rewrite Hfault in *.
Qed.

Lemma clean_run_exec c0 rows0 evs s :
  prepare w = inr (c0, rows0) →
  rows0 ≠ [] →
  (∀ st, w_fault w st = None) →
  reachable w tk s →
  clean_run w tk (Z.of_nat (length rows0)) s →
  EvCancelCommit ∉ evs → EvSweep ∉ evs →
  clean_run w tk (Z.of_nat (length rows0)) (exec w tk evs s).
Proof.
  intros Hprep Hrows Hfault. revert s.
  induction evs as [|ev evs IH]; intros s Hs Hclean Hc Hsw; [done|].
  apply not_elem_of_cons in Hc as [? ?].
  apply not_elem_of_cons in Hsw as [? ?].
  rewrite exec_cons. apply IH; [by constructor| |done..].
  by eapply clean_run_step.
Qed.

(** X14.  A run over a workbook with a title column and at least one row
    to translate, in which no call into the workbook raises and no
    cancellation is recorded, ends with status [done], [current] and
    [total] equal to the number of selected rows, 100 percent, an
    estimate of 0, the download reference and [finished_at], whatever the
    translation service returns; the worker has then saved one file,
    released the scratch directory and scheduled the sweeper. *)
Theorem uninterrupted_run_completes (ws : worksheet) (col : Z) (T0 : registry)
    (evs : list event) :
  w_load w = inr (Some ws) →
  find_title (row_cells ws 1) 1 = Some col →
  rows_to_translate ws col ≠ [] →
  (∀ st, w_fault w st = None) →
  EvCancelCommit ∉ evs → EvSweep ∉ evs →
  (steps_left w WStart ≤ count_worker evs)%nat →
  let s := exec w tk evs (start_background_task tk T0) in
  let n := Z.of_nat (length (rows_to_translate ws col)) in
  worker s = WExit ∧
  field tk "status" s = Some (VStr "done") ∧
  field tk "current" s = Some (VInt n) ∧
  field tk "total" s = Some (VInt n) ∧
  field tk "percent" s = Some (VInt 100) ∧
  field tk "eta_seconds" s = Some (VInt 0) ∧
  field tk "download_filename" s = Some (VStr (output_filename_of tk)) ∧
  field tk "finished_at" s = Some (VFloat (w_time w TFinished)) ∧
  ∃ out,
    effects s =
      [EffSave (path_join (w_tmpdir w) (output_filename_of tk)) out;
       EffRelease (dirname (file_path tk)) (w_release w);
       EffSchedule (task_id tk)].
Proof.
  intros Hload Htitle Hrows Hfault Hc Hsw Hn s n.
  assert (∃ c0, prepare w = inr (c0, rows_to_translate ws col)) as [c0 Hprep].
  { unfold prepare. rewrite Hload, Htitle, Hfault.
    rewrite rows_to_translate_prepared; [by eexists|].
    by apply find_title_lower_bound in Htitle. }
  assert (reachable w tk s) as Hs by apply reachable_exec, reach_start.
  assert (worker s = WExit) as Hexit by by apply worker_ends.
  assert (clean_run w tk n s) as (_ & _ & Hrec).
  { eapply clean_run_exec; try done; [apply reach_start|].
    unfold clean_run. rewrite snapshot_start.
    split; [apply initial_state_nonempty|]. done. }
  rewrite Hexit in Hrec. unfold field.
  destruct Hrec as (? & ? & ? & ? & ? & Hdl & ?).
  repeat (split; [done|]).
  destruct (output_invariant_holds w tk s Hs) as (_ & saved & Heffs & Hsaved).
  rewrite Hexit in Heffs.
  destruct Hsaved as [[_ E]|(_ & _ & c1 & rows1 & _ & ->)]; [congruence|].
  by eexists.
Qed.
End clean_runs.

(** ** Paths *)

Lemma string_app_cons a s1 s2 : String a s1 ++ s2 = String a (s1 ++ s2).
Proof. reflexivity. Qed.

Lemma string_app_nil_r s : s ++ "" = s.
Proof. induction s as [|a s IH]; [done|]. by rewrite string_app_cons, IH. Qed.

Lemma string_app_assoc s1 s2 s3 : (s1 ++ s2) ++ s3 = s1 ++ (s2 ++ s3).
Proof.
  induction s1 as [|a s1 IH]; [done|]. by rewrite !string_app_cons, IH.
Qed.

Lemma string_rev_app_spec s1 s2 : String.rev_app s1 s2 = String.rev s1 ++ s2.
Proof.
  revert s2. induction s1 as [|a s1 IH]; intros s2; [done|].
  unfold String.rev. simpl. rewrite IH, (IH (String a "")).
  by rewrite string_app_assoc.
Qed.

Lemma string_rev_cons a s : String.rev (String a s) = String.rev s ++ String a "".
Proof. unfold String.rev at 1. simpl. apply string_rev_app_spec. Qed.

Lemma string_rev_app s1 s2 :
  String.rev (s1 ++ s2) = String.rev s2 ++ String.rev s1.
Proof.
  induction s1 as [|a s1 IH].
  - by rewrite string_app_nil_r.
  - by rewrite string_app_cons, !string_rev_cons, IH, string_app_assoc.
Qed.

Lemma string_rev_involutive s : String.rev (String.rev s) = s.
Proof.
  induction s as [|a s IH]; [done|].
  by rewrite string_rev_cons, string_rev_app, IH.
Qed.

Lemma lacks_cons c a s : lacks c (String a s) ↔ a ≠ c ∧ lacks c s.
Proof.
  unfold lacks. simpl. destruct (Ascii.eqb_spec a c) as [->|Hne].
  - split; [done|]. by intros [? _].
  - split; [by split|]. by intros [_ ?].
Qed.

Lemma lacks_app c s1 s2 : lacks c (s1 ++ s2) ↔ lacks c s1 ∧ lacks c s2.
Proof.
  induction s1 as [|a s1 IH].
  - split; [by split|]. by intros [_ ?].
  - rewrite string_app_cons, !lacks_cons, IH. tauto.
Qed.

Lemma lacks_rev c s : lacks c s → lacks c (String.rev s).
Proof.
  induction s as [|a s IH]; [done|].
  rewrite lacks_cons, string_rev_cons, lacks_app, lacks_cons.
  intros [? ?]. by repeat split; [apply IH|..].
Qed.

Lemma after_first c s1 s2 : lacks c s1 → after c (s1 ++ String c s2) = Some s2.
Proof.
  induction s1 as [|a s1 IH].
  - intros _. simpl. by rewrite Ascii.eqb_refl.
  - rewrite lacks_cons, string_app_cons. intros [Ha Hs]. simpl.
    destruct (Ascii.eqb_spec a c); [done|]. by apply IH.
Qed.

Lemma before_first c s1 s2 : lacks c s1 → before c (s1 ++ String c s2) = s1.
Proof.
  induction s1 as [|a s1 IH].
  - intros _. simpl. by rewrite Ascii.eqb_refl.
  - rewrite lacks_cons, string_app_cons. intros [Ha Hs]. simpl.
    destruct (Ascii.eqb_spec a c); [done|]. by rewrite IH.
Qed.

Lemma all_char_app c s1 s2 :
  all_char c (s1 ++ s2) = all_char c s1 && all_char c s2.
Proof.
  induction s1 as [|a s1 IH]; [done|].
  rewrite string_app_cons. simpl. rewrite IH. by rewrite andb_assoc.
Qed.

(** For a directory name that does not end in a slash and a file name
    without slash, [dirname] and [basename] take the joined path apart
    again. *)
Lemma path_join_round_trip (d name : string) :
  plain_directory d → lacks "/" name →
  dirname (path_join d name) = d ∧ basename (path_join d name) = name.
Proof.
  intros (a & r & Hd & Ha) Hname.
  assert (path_join d name = d ++ String "/" name) as ->.
  { unfold path_join. destruct (String.eqb_spec d "") as [->|_]; [done|].
    rewrite Hd. destruct a as [[] [] [] [] [] [] [] []]; try done. }
  assert (String.rev (d ++ String "/" name)
            = String.rev name ++ String "/" (String.rev d)) as Hrev.
  { rewrite string_rev_app, string_rev_cons, string_app_assoc. done. }
  pose proof (lacks_rev "/" name Hname) as Hname'.
  split.
  - unfold dirname. rewrite Hrev, after_first by done.
    rewrite string_rev_cons, string_rev_involutive, all_char_app.
    assert (all_char "/" d = false) as ->.
    { rewrite <- (string_rev_involutive d), Hd, string_rev_cons, all_char_app.
      simpl. destruct (Ascii.eqb_spec a "/"); [done|].
      by rewrite andb_false_r. }
    simpl. rewrite ?Ascii.eqb_refl, Hd. simpl.
    destruct (Ascii.eqb_spec a "/"); [done|].
    by rewrite <- Hd, string_rev_involutive.
  - unfold basename. rewrite Hrev, before_first by done.
    apply string_rev_involutive.
Qed.

(** ** Uploads *)

(** X15.  An upload is answered 202 and starts a task exactly when its
    body is no longer than [MAX_CONTENT_LENGTH], its form has a file part
    whose name is not empty and ends in ".xlsx" (in lower case), and the
    scratch directory and the file could be written.  A longer body is
    answered 413, whatever it holds; every other upload is answered 400
    or 500; none of these starts a task or changes the registry.  The
    task that is started is in the registry under the identifier of the
    response, with status [idle] and the secured file name, and the other
    tasks are as before. *)
Theorem upload_outcome (e : upload_env) (req : upload_request) (T : registry) :
  let '(r, started) := upload_file e req T in
  let valid :=
    ∃ name temp_dir,
      content_length req ≤ MAX_CONTENT_LENGTH ∧
      file_part req = Some name ∧ name ≠ "" ∧ endswith name ".xlsx" = true ∧
      u_mkdtemp e = inr temp_dir ∧ u_save e = None in
  (upload_code r = 202 ↔ valid) ∧
  (is_Some started ↔ valid) ∧
  (upload_code r = 413 ↔ MAX_CONTENT_LENGTH < content_length req) ∧
  (upload_code r = 202 ∨ upload_code r = 400 ∨ upload_code r = 413 ∨
   upload_code r = 500) ∧
  (∀ tk s, started = Some (tk, s) →
     r = Json (upload_accepted (task_id tk)) ∧
     task_id tk = u_uuid e ∧
     (∃ name, file_part req = Some name ∧
              filename tk = u_secure_filename e name) ∧
     s = start_background_task tk T ∧
     field tk "status" s = Some (VStr "idle") ∧
     field tk "filename" s = Some (VStr (filename tk)) ∧
     field tk "cancel_requested" s = Some (VBool false) ∧
     ∀ tid', tid' ≠ task_id tk → tasks s !! tid' = T !! tid').
Proof.
  unfold upload_file.
  destruct (Z.ltb_spec MAX_CONTENT_LENGTH (content_length req)) as [Hbig|Hfit].
  { repeat split; try done; try (by right; right; left);
      try (intros (? & ? & ? & _); lia); by intros []. }
  destruct (file_part req) as [name|] eqn:Hpart.
  2: { repeat split; try done; try (by right; left); try (simpl; lia);
         try (by intros (? & ? & _ & ? & _)); by intros []. }
  destruct (String.eqb_spec name "") as [->|Hname].
  { repeat split; try done; try (by right; left); try (simpl; lia);
      try (by intros (? & ? & _ & [= <-] & ? & _)); by intros []. }
  destruct (endswith name ".xlsx") eqn:Hext; simpl.
  2: { repeat split; try done; try (by right; left); try (simpl; lia);
         try (intros (? & ? & _ & [= <-] & _ & ? & _); congruence);
         by intros []. }
  destruct (u_mkdtemp e) as [msg|temp_dir] eqn:Hdir.
  { repeat split; try done; try (by right; right; right); try (simpl; lia);
      try (by intros (? & ? & _ & _ & _ & _ & ? & _)); by intros []. }
  destruct (u_save e) as [msg|] eqn:Hsave.
  { repeat split; try done; try (by right; right; right); try (simpl; lia);
      try (by intros (? & ? & _ & _ & _ & _ & _ & ?)); by intros []. }
  split; [|split; [|split; [|split; [by left|]]]].
  - split; [|done]. intros _. by exists name, temp_dir.
  - split; [|done]. intros _. by exists name, temp_dir.
  - simpl. split; [done|lia].
  - intros tk s [= <- <-]. simpl. repeat split; try done.
    + by exists name.
    + unfold field. by rewrite snapshot_start.
    + unfold field. by rewrite snapshot_start.
    + unfold field. by rewrite snapshot_start.
    + intros tid' Hne. by rewrite lookup_insert_ne.
Qed.

Example upload_suffix_is_case_sensitive :
  upload_code
    (upload_file (UploadEnv id (inr "/tmp/tmpk3v9") None "3f9a1c0b7d2e")
       (UploadRequest 9000 (Some "BOOK.XLSX")) ∅).1 = 400.
Proof. reflexivity. Qed.

Example upload_too_large :
  upload_file (UploadEnv id (inr "/tmp/tmpk3v9") None "3f9a1c0b7d2e")
    (UploadRequest (MAX_CONTENT_LENGTH + 1) (Some "book.xlsx")) ∅
  = (RequestEntityTooLarge, None).
Proof. reflexivity. Qed.

(** X16.  The scratch directory of an accepted upload is the directory
    that [mkdtemp] created: when the secured file name has no slash, the
    task records that directory as [tmp_dir], and the release at the end
    of the run, which is the first effect after the save if there is one,
    is of that directory. *)
Theorem scratch_directory_is_the_upload_directory (e : upload_env)
    (req : upload_request) (name temp_dir : string) (T : registry)
    (w : world) (tk : task) (s0 s : sys) (evs : list event) :
  plain_directory temp_dir →
  file_part req = Some name →
  lacks "/" (u_secure_filename e name) →
  u_mkdtemp e = inr temp_dir →
  upload_file e req T = (Json (upload_accepted (task_id tk)), Some (tk, s0)) →
  s = exec w tk evs s0 →
  field tk "tmp_dir" s0 = Some (VStr temp_dir) ∧
  basename (file_path tk) = u_secure_filename e name ∧
  (∀ base o, EffRelease base o ∈ effects s → base = temp_dir) ∧
  (worker s = WExit →
   ∃ saved, effects s =
     saved ++ [EffRelease temp_dir (w_release w); EffSchedule (task_id tk)])%list.
Proof.
  intros Hdir Hpart Hname Hmk Hup ->.
  unfold upload_file in Hup. rewrite Hpart, Hmk in Hup.
  destruct (MAX_CONTENT_LENGTH <? content_length req); [done|].
  destruct (String.eqb name ""); [done|].
  destruct (endswith name ".xlsx"); [|done]. simpl in Hup.
  destruct (u_save e); [done|]. injection Hup as _ <- <-. cbn [file_path].
  destruct (path_join_round_trip temp_dir (u_secure_filename e name))
    as [Hd Hb]; [done..|].
  set (tk := Task _ _ _).
  assert (reachable w tk (exec w tk evs (start_background_task tk T))) as Hs
    by apply reachable_exec, reach_start.
  destruct (output_invariant_holds w tk _ Hs) as (_ & saved & Heffs & Hsaved).
  split; [|split; [done|split]].
  - unfold field. rewrite snapshot_start. unfold initial_state.
    cbn [file_path tk]. rewrite Hd. reflexivity.
  - intros base o. rewrite Heffs. intros [Hin|Hin]%elem_of_app.
    + destruct Hsaved as [[-> _]|(_ & _ & ? & ? & _ & ->)].
      * by apply elem_of_nil in Hin.
      * by apply list_elem_of_singleton in Hin.
    + destruct (worker _); simpl in Hin;
        repeat (apply elem_of_cons in Hin as [Hin|Hin]);
        try (by apply elem_of_nil in Hin); try done;
        injection Hin as -> _; by cbn [file_path tk].
  - intros Hexit. exists saved. rewrite Heffs, Hexit. simpl.
    cbn [file_path tk]. by rewrite Hd.
Qed.

(** ** Further runs on the sample workbooks *)

Lemma no_commit_worker_only n : EvCancelCommit ∉ worker_only n.
Proof. unfold worker_only. intros [? _]%elem_of_replicate. done. Qed.

Lemma other_tasks_untouched_witness :
  let w := sample_world two_row_sheet no_fault RelRemoved in
  let T0 : registry := {[ "70b1e5a9c3d4" := {[ "status" := VStr "running" ]} ]} in
  tasks (exec w sample_task (worker_only 10 ++ [EvSweep])
           (start_background_task sample_task T0)) !! "70b1e5a9c3d4"
    = T0 !! "70b1e5a9c3d4".
Proof.
  intros w T0.
  destruct (other_tasks_untouched w sample_task "70b1e5a9c3d4" T0
              (worker_only 10 ++ [EvSweep])%list
              (start_background_task sample_task T0)) as [Hrun Hstart].
  - discriminate.
  - rewrite Hrun. exact Hstart.
Defined.

Lemma evicted_only_after_worker_end_witness :
  let w := sample_world two_row_sheet no_fault RelRemoved in
  let s := exec w sample_task (worker_only 4) sample_start in
  sys_step w sample_task EvSweep s = s.
Proof.
  intros w s.
  destruct (evicted_only_after_worker_end w sample_task s []) as (Hrun & _).
  - apply sample_reachable.
  - apply Hrun. vm_compute. discriminate.
Defined.

Lemma status_transitions_witness :
  let w := sample_world two_row_sheet no_fault RelRemoved in
  let s := exec w sample_task (worker_only 4) sample_start in
  field sample_task "status" (sys_step w sample_task EvCancelCommit s)
    = field sample_task "status" s.
Proof.
  intros w s.
  destruct (status_transitions w sample_task s EvCancelCommit) as (Hsame & _).
  - apply sample_reachable.
  - discriminate.
  - apply Hsame. discriminate.
Defined.

Lemma progress_counters_in_range_witness :
  let w := sample_world two_row_sheet no_fault RelRemoved in
  let s := exec w sample_task (worker_only 6) sample_start in
  ∃ p cur tot,
    field sample_task "percent" s = Some (VInt p) ∧
    field sample_task "current" s = Some (VInt cur) ∧
    field sample_task "total" s = Some (VInt tot) ∧
    0 ≤ p ≤ 100 ∧ 0 ≤ cur ≤ tot.
Proof.
  intros w s. apply (progress_counters_in_range w sample_task s).
  - apply sample_reachable.
  - vm_compute. discriminate.
Defined.

Lemma progress_never_decreases_witness :
  let w := sample_world two_row_sheet no_fault RelRemoved in
  let s := exec w sample_task (worker_only 4) sample_start in
  field sample_task "percent" s = Some (VInt 0) ∧
  field sample_task "percent" (sys_step w sample_task EvWorker s)
    = Some (VInt 50) ∧
  0 ≤ 50.
Proof.
  intros w s.
  destruct (progress_never_decreases w sample_task s EvWorker) as (Hp & _).
  - apply sample_reachable.
  - discriminate.
  - assert (field sample_task "percent" s = Some (VInt 0)) as E1
      by (vm_compute; reflexivity).
    assert (field sample_task "percent" (sys_step w sample_task EvWorker s)
              = Some (VInt 50)) as E2 by (vm_compute; reflexivity).
    split; [exact E1|]. split; [exact E2|]. exact (Hp 0 50 E1 E2).
Defined.


Lemma advertised_download_is_served_witness :
  let w := sample_world two_row_sheet no_fault RelRemoved in
  let s := exec w sample_task (worker_only 10) sample_start in
  let other := EffSave "/tmp/list_中文翻译.xlsx" one_row_sheet in
  ∃ out,
    EffSave "/tmp/book_中文翻译.xlsx" out ∈ effects s ∧
    download_file "/tmp" (files_after ∅ (other :: effects s))
      "book_中文翻译.xlsx"
      = SendFile "/tmp/book_中文翻译.xlsx" "book_中文翻译.xlsx" out.
Proof.
  intros w s other.
  destruct (advertised_download_is_served w sample_task s
              (VStr "book_中文翻译.xlsx"))
    as (_ & _ & _ & _ & _ & out & Hin & Hserved).
  - apply sample_reachable.
  - vm_compute. reflexivity.
  - exists out. split; [exact Hin|].
    apply (Hserved ∅ _ [other] (other :: effects s)).
    + apply interleaving_right.
      generalize (effects s). intros l.
      induction l as [|e l IH]; [constructor|by constructor].
    + repeat constructor.
    + vm_compute. reflexivity.
    + apply fs_run_files_after.
Defined.

(** Two tasks uploaded under the same name write the same output path:
    after both have completed, the download that the first advertises
    serves the workbook of the second. *)
Example same_name_uploads_share_the_output :
  let w1 := sample_world two_row_sheet no_fault RelRemoved in
  let w2 := sample_world one_row_sheet no_fault RelRemoved in
  let tk2 := Task "/tmp/tmpq7c2/book.xlsx" "book.xlsx" "70b1e5a9c3d4" in
  let s1 := exec w1 sample_task (worker_only 10) sample_start in
  let s2 := exec w2 tk2 (worker_only 10) (start_background_task tk2 (tasks s1)) in
  field sample_task "download_filename" s1 = Some (VStr "book_中文翻译.xlsx") ∧
  _get_state "3f9a1c0b7d2e" (tasks s2) !! "download_filename"
    = Some (VStr "book_中文翻译.xlsx") ∧
  EffSave "/tmp/book_中文翻译.xlsx" two_row_output ∈ effects s1 ∧
  download_file "/tmp" (files_after ∅ (effects s1 ++ effects s2))
    "book_中文翻译.xlsx"
  = SendFile "/tmp/book_中文翻译.xlsx" "book_中文翻译.xlsx"
      [[CStr "id"; CStr "Title"; CStr "中文"];
       [CInt 1; CStr "hello"; CStr "zh:hello"]].
Proof. vm_compute. repeat split. apply list_elem_of_here. Qed.

Lemma uninterrupted_run_completes_witness :
  let w := sample_world two_row_sheet no_fault RelRemoved in
  let s := exec w sample_task (worker_only 12) sample_start in
  worker s = WExit ∧
  field sample_task "status" s = Some (VStr "done") ∧
  field sample_task "current" s = Some (VInt 2).
Proof.
  intros w s.
  destruct (uninterrupted_run_completes w sample_task two_row_sheet 2 ∅
              (worker_only 12)) as (Hexit & Hst & Hcur & _).
  - reflexivity.
  - vm_compute. reflexivity.
  - vm_compute. discriminate.
  - intros st. reflexivity.
  - apply no_commit_worker_only.
  - apply no_sweep_worker_only.
  - rewrite count_worker_only. vm_compute. lia.
  - split; [exact Hexit|]. split; [exact Hst|exact Hcur].
Defined.

Lemma scratch_directory_is_the_upload_directory_witness :
  let e := UploadEnv id (inr "/tmp/tmpk3v9") None "3f9a1c0b7d2e" in
  let w := sample_world two_row_sheet no_fault RelRaised in
  let s := exec w sample_task (worker_only 10) sample_start in
  field sample_task "tmp_dir" sample_start = Some (VStr "/tmp/tmpk3v9") ∧
  ∀ base o, EffRelease base o ∈ effects s → base = "/tmp/tmpk3v9".
Proof.
  intros e w s.
  destruct (scratch_directory_is_the_upload_directory e
              (UploadRequest 9000 (Some "book.xlsx")) "book.xlsx"
              "/tmp/tmpk3v9" ∅ w sample_task sample_start s (worker_only 10))
    as (Hdir & _ & Hrel & _).
  - exists "9"%char, "v3kpmt/pmt/". split; [reflexivity|discriminate].
  - reflexivity.
  - reflexivity.
  - reflexivity.
  - reflexivity.
  - reflexivity.
  - split; [exact Hdir|exact Hrel].
Defined.
